(** * replay_cot.py: replaying logged positions as Cursor-on-Target events

    A shallow embedding of [src/replay_cot.py] and the properties of its
    three functions: [parse_log_for_positions] (the log scanner),
    [send_cot_to_tak] (the sender) and the loop of [main] (the replay
    driver).

    Text is a list of characters.  A character is a code point below 256
    (Rocq's [ascii]); in that range the only characters Python's [\d]
    accepts are "0" to "9". *)

From Stdlib Require Import List Ascii String ZArith Lia Bool Arith DecimalString.
Import ListNotations.

Set Implicit Arguments.

Definition text := list ascii.

(** A string literal as text. *)
Definition txt (s : string) : text := list_ascii_of_string s.

(** ** The fragment of Python's [re] that [cot_regex] is written in *)

Module Re.

(** What one pattern character stands for: [\d], [.] or a literal. *)
Inductive cclass : Type :=
| Digit
| Dot
| Lit (c : ascii).

Definition newline : ascii := "010"%char.

Definition is_digit (a : ascii) : bool :=
  (48 <=? nat_of_ascii a) && (nat_of_ascii a <=? 57).

(** [.] is compiled without DOTALL: it accepts everything but a line break. *)
Definition accepts (cl : cclass) (a : ascii) : bool :=
  match cl with
  | Digit => is_digit a
  | Dot => negb (Ascii.eqb a newline)
  | Lit c => Ascii.eqb a c
  end.

Inductive regex : Type :=
| One (cl : cclass)                 (* a single character *)
| Exactly (n : nat) (cl : cclass)   (* cl{n} *)
| Star (cl : cclass)                (* cl*, greedy *)
| Plus (cl : cclass)                (* cl+, greedy *)
| Opt (cl : cclass)                 (* cl?, greedy *)
| Str (t : text)                    (* literal text *)
| Cat (r1 r2 : regex)               (* r1 followed by r2 *)
| Group (r : regex).                (* ( r ), capturing *)

(** One way of matching at the current position: the text consumed, the
    groups captured (in the order of their opening parenthesis) and the
    text left. *)
Definition attempt : Type := text * list text * text.

Fixpoint take_exactly (n : nat) (cl : cclass) (s : text) : option (text * text) :=
  match n with
  | O => Some ([], s)
  | S n' =>
      match s with
      | a :: s' =>
          if accepts cl a then
            match take_exactly n' cl s' with
            | Some (m, rest) => Some (a :: m, rest)
            | None => None
            end
          else None
      | [] => None
      end
  end.

(** Every way to match [cl*] at the head of [s], the longest first: the
    order in which a backtracking matcher tries a greedy repetition. *)
Fixpoint greedy (cl : cclass) (s : text) : list (text * text) :=
  match s with
  | a :: s' =>
      if accepts cl a
      then map (fun mr => (a :: fst mr, snd mr)) (greedy cl s') ++ [([], s)]
      else [([], s)]
  | [] => [([], [])]
  end.

Fixpoint strip_prefix (p s : text) : option text :=
  match p with
  | [] => Some s
  | c :: p' =>
      match s with
      | a :: s' => if Ascii.eqb a c then strip_prefix p' s' else None
      | [] => None
      end
  end.

Definition nonempty (t : text) : bool :=
  match t with [] => false | _ :: _ => true end.

(** The matcher: all attempts at the head of [s], in the order Python's
    backtracking engine explores them.  The first one is the match. *)
Fixpoint run (r : regex) (s : text) : list attempt :=
  match r with
  | One cl =>
      match s with
      | a :: s' => if accepts cl a then [([a], [], s')] else []
      | [] => []
      end
  | Exactly n cl =>
      match take_exactly n cl s with
      | Some (m, rest) => [(m, [], rest)]
      | None => []
      end
  | Star cl => map (fun mr => (fst mr, [], snd mr)) (greedy cl s)
  | Plus cl =>
      map (fun mr => (fst mr, [], snd mr))
          (filter (fun mr => nonempty (fst mr)) (greedy cl s))
  | Opt cl =>
      match s with
      | a :: s' => if accepts cl a then [([a], [], s'); ([], [], s)] else [([], [], s)]
      | [] => [([], [], [])]
      end
  | Str t =>
      match strip_prefix t s with
      | Some rest => [(t, [], rest)]
      | None => []
      end
  | Cat r1 r2 =>
      flat_map
        (fun a1 : attempt =>
           let '(m1, g1, s1) := a1 in
           map (fun a2 : attempt =>
                  let '(m2, g2, s2) := a2 in (m1 ++ m2, g1 ++ g2, s2))
               (run r2 s1))
        (run r1 s)
  | Group r' =>
      map (fun a : attempt => let '(m, g, rest) := a in (m, m :: g, rest)) (run r' s)
  end.

(** [pattern.search(s)]: the first position of [s], from the left, at
    which the pattern matches; the result is [match.groups()]. *)
Fixpoint search (r : regex) (s : text) : option (list text) :=
  match run r s with
  | (_, g, _) :: _ => Some g
  | [] =>
      match s with
      | [] => None
      | _ :: s' => search r s'
      end
  end.

(** [pattern.fullmatch(s)]: some attempt at the head consumes all of [s]. *)
Definition fullmatch (r : regex) (s : text) : bool :=
  existsb (fun a : attempt => negb (nonempty (snd a))) (run r s).

(** The language of a pattern, with the groups a match captures. *)
Inductive Matches : regex -> text -> list text -> Prop :=
| MOne cl a : accepts cl a = true -> Matches (One cl) [a] []
| MExactly n cl m :
    List.length m = n -> forallb (accepts cl) m = true -> Matches (Exactly n cl) m []
| MStar cl m : forallb (accepts cl) m = true -> Matches (Star cl) m []
| MPlus cl m :
    m <> [] -> forallb (accepts cl) m = true -> Matches (Plus cl) m []
| MOptNone cl : Matches (Opt cl) [] []
| MOptSome cl a : accepts cl a = true -> Matches (Opt cl) [a] []
| MStr t : Matches (Str t) t []
| MCat r1 r2 m1 m2 g1 g2 :
    Matches r1 m1 g1 -> Matches r2 m2 g2 ->
    Matches (Cat r1 r2) (m1 ++ m2) (g1 ++ g2)
| MGroup r m g : Matches r m g -> Matches (Group r) m (m :: g).
End Re.

(** ** Exceptions

    The exception classes the modelled operations raise.  Every one is a
    subclass of Python's [Exception].  Interrupts ([KeyboardInterrupt],
    [SystemExit]), which no [except] clause of the program catches, are
    not modelled: the statements below are about runs without them. *)

Inductive exn : Type :=
| FileNotFoundError
| ValueError               (* dateutil's ParserError is a ValueError *)
| TypeError
| OverflowError
| UnicodeDecodeError
| ConnectionRefusedError
| SSLError                 (* ssl.SSLError and its subclasses *)
| SocketTimeout            (* socket.timeout *)
| OSError.                 (* any other OSError: reset, broken pipe, permission *)

(** A computation that returns a value or raises. *)
Definition result (A : Type) : Type := (exn + A)%type.

Definition ret {A : Type} (a : A) : result A := inr a.
Definition raise {A : Type} (e : exn) : result A := inl e.

Definition bind {A B : Type} (c : result A) (k : A -> result B) : result B :=
  match c with
  | inl e => inl e
  | inr a => k a
  end.

Declare Scope result_scope.
Delimit Scope result_scope with result.

Notation "x <- c ;; k" := (bind c (fun x => k))
  (at level 61, c at next level, right associativity) : result_scope.

(** ** Naive and aware datetimes *)

Module Datetime.

Local Open Scope Z_scope.

(** A datetime is a point of the local clock, counted in microseconds from
    0001-01-01 00:00:00, with the UTC offset of its [tzinfo] (in
    microseconds) when it is aware. *)
Record datetime : Type := mk_datetime {
  instant : Z;
  utcoffset : option Z
}.

Definition is_leap (y : Z) : bool :=
  (y mod 4 =? 0) && (negb (y mod 100 =? 0) || (y mod 400 =? 0)).

Definition days_in_month (y m : Z) : Z :=
  if m =? 2 then (if is_leap y then 29 else 28)
  else if (m =? 4) || (m =? 6) || (m =? 9) || (m =? 11) then 30
  else 31.

Definition days_before_year (y : Z) : Z :=
  let p := y - 1 in p * 365 + p / 4 - p / 100 + p / 400.

Fixpoint days_in_months (y : Z) (n : nat) : Z :=
  match n with
  | O => 0
  | S k => days_in_months y k + days_in_month y (Z.of_nat n)
  end.

(** Days of the year [y] before the first of month [m]. *)
Definition days_before_month (y m : Z) : Z :=
  days_in_months y (Z.to_nat (m - 1)).

(** [date.toordinal]: 0001-01-01 is day 1. *)
Definition ymd2ord (y m d : Z) : Z :=
  days_before_year y + days_before_month y m + d.

Definition MAXORDINAL : Z := 3652059.   (* date(9999, 12, 31).toordinal() *)
Definition usec_per_second : Z := 1000000.
Definition usec_per_day : Z := 86400 * usec_per_second.

Definition in_range (lo x hi : Z) : bool := (lo <=? x) && (x <=? hi).

(** The point that valid fields name. *)
Definition fields_instant (y mo d h mi s us : Z) : Z :=
  ((ymd2ord y mo d - 1) * 86400 + h * 3600 + mi * 60 + s) * usec_per_second + us.

(** The constructor [datetime(y, mo, d, h, mi, s, us)]: a field out of its
    range raises [ValueError]. *)
Definition make (y mo d h mi s us : Z) : result datetime :=
  if in_range 1 y 9999 && in_range 1 mo 12 && in_range 1 d (days_in_month y mo)
     && in_range 0 h 23 && in_range 0 mi 59 && in_range 0 s 59
     && in_range 0 us 999999
  then ret (mk_datetime (fields_instant y mo d h mi s us) None)
  else raise ValueError.

(** [a <= b]: an offset-naive and an offset-aware datetime do not compare. *)
Definition le (a b : datetime) : result bool :=
  match utcoffset a, utcoffset b with
  | None, None => ret (instant a <=? instant b)
  | Some oa, Some ob => ret (instant a - oa <=? instant b - ob)
  | _, _ => raise TypeError
  end.

(** [a >= b]. *)
Definition ge (a b : datetime) : result bool := le b a.

(** The chained comparison [a <= t <= b]: [t <= b] is evaluated only when
    [a <= t] holds. *)
Definition between (a t b : datetime) : result bool :=
  (lo <- le a t ;;
   if lo then le t b else ret false)%result.

(** [timedelta(minutes=n)], in microseconds. *)
Definition timedelta_minutes (n : Z) : Z := n * 60 * usec_per_second.

(** [t + delta]: a result outside years 1..9999 raises [OverflowError]. *)
Definition add (t : datetime) (delta : Z) : result datetime :=
  let r := instant t + delta in
  if (0 <=? r) && (r <? MAXORDINAL * usec_per_day)
  then ret (mk_datetime r (utcoffset t))
  else raise OverflowError.

(** [int] of a run of decimal digits. *)
Definition digit_value (a : ascii) : Z := Z.of_nat (nat_of_ascii a) - 48.

Definition int_of_digits (t : text) : Z :=
  fold_left (fun acc a => acc * 10 + digit_value a) t 0.

(** [dateutil.parser.parse] on the text that group 1 of [cot_regex]
    captures, [YYYY-MM-DD HH:MM:SS,mmm]: the four-digit field is the year,
    the fields after it month and day, the comma is read as the decimal
    mark of the seconds, and the result is naive.  Fields that name no
    calendar date or time of day raise (ParserError, a [ValueError]).  The
    scanner passes no other text; here such a text raises too. *)
Definition parse_date (t : text) : result datetime :=
  match t with
  | [y1; y2; y3; y4; i1; m1; m2; i2; d1; d2; i3;
     h1; h2; i4; n1; n2; i5; s1; s2; i6; u1; u2; u3] =>
      if forallb Re.is_digit
           [y1; y2; y3; y4; m1; m2; d1; d2; h1; h2; n1; n2; s1; s2; u1; u2; u3]
         && forallb (fun p => Ascii.eqb (fst p) (snd p))
              [(i1, "-"); (i2, "-"); (i3, " "); (i4, ":"); (i5, ":"); (i6, ",")]%char
      then make (int_of_digits [y1; y2; y3; y4]) (int_of_digits [m1; m2])
                (int_of_digits [d1; d2]) (int_of_digits [h1; h2])
                (int_of_digits [n1; n2]) (int_of_digits [s1; s2])
                (int_of_digits [u1; u2; u3] * 1000)
      else raise ValueError
  | _ => raise ValueError
  end.

End Datetime.

Import Datetime.

(** ** The scanner's pattern *)

Module Scanner.

Import Re.

Notation "r1 ~> r2" := (Cat r1 r2) (at level 60, right associativity).

(** [\d+\.\d+] *)
Definition decimal_re : regex :=
  Plus Digit ~> Str (txt ".") ~> Plus Digit.

(** [-?\d+\.\d+] *)
Definition signed_decimal_re : regex :=
  Opt (Lit "-") ~> decimal_re.

(** [\d{4}-\d{2}-\d{2} \d{2}:\d{2}:\d{2},\d{3}] *)
Definition timestamp_re : regex :=
  Exactly 4 Digit ~> Str (txt "-") ~> Exactly 2 Digit ~> Str (txt "-") ~>
  Exactly 2 Digit ~> Str (txt " ") ~>
  Exactly 2 Digit ~> Str (txt ":") ~> Exactly 2 Digit ~> Str (txt ":") ~>
  Exactly 2 Digit ~> Str (txt ",") ~> Exactly 3 Digit.

(** The pattern compiled at lines 46-48. *)
Definition cot_regex : regex :=
  Group timestamp_re ~> Str (txt " - INFO - CoT for ") ~> Star Dot ~>
  Str (txt ": lat=") ~> Group signed_decimal_re ~>
  Str (txt ", lon=") ~> Group signed_decimal_re ~>
  Str (txt ", alt=") ~> Group decimal_re.

(** *** The line format in the specification's words

    [<timestamp> - INFO - CoT for <anything>: lat=<signed decimal>,
    lon=<signed decimal>, alt=<unsigned decimal>], the timestamp being
    [YYYY-MM-DD HH:MM:SS,mmm]. *)

Definition digits (t : text) : Prop := forallb is_digit t = true.

(** A field of exactly [n] digits. *)
Definition field (n : nat) (t : text) : Prop := List.length t = n /\ digits t.

Definition is_timestamp (t : text) : Prop :=
  exists Y M D h m s ms,
    t = Y ++ txt "-" ++ M ++ txt "-" ++ D ++ txt " " ++
        h ++ txt ":" ++ m ++ txt ":" ++ s ++ txt "," ++ ms /\
    field 4 Y /\ field 2 M /\ field 2 D /\
    field 2 h /\ field 2 m /\ field 2 s /\ field 3 ms.

(** Digits, a decimal point, digits: at least one digit on each side. *)
Definition unsigned_decimal (t : text) : Prop :=
  exists i f, t = i ++ txt "." ++ f /\ i <> [] /\ digits i /\ f <> [] /\ digits f.

(** An unsigned decimal, or one with a minus sign before it. *)
Definition signed_decimal (t : text) : Prop :=
  exists sign u, t = sign ++ u /\ (sign = [] \/ sign = txt "-") /\ unsigned_decimal u.

(** <anything>: any text within one line. *)
Definition one_line (t : text) : Prop := ~ In newline t.

Definition position_entry (ts name lat lon alt : text) : text :=
  ts ++ txt " - INFO - CoT for " ++ name ++ txt ": lat=" ++ lat ++
  txt ", lon=" ++ lon ++ txt ", alt=" ++ alt.

(** [t] is a position entry with these timestamp, lat, lon and alt texts. *)
Definition entry_of (t ts lat lon alt : text) : Prop :=
  exists name,
    t = position_entry ts name lat lon alt /\
    is_timestamp ts /\ one_line name /\
    signed_decimal lat /\ signed_decimal lon /\ unsigned_decimal alt.

(** [t] conforms exactly to the pattern. *)
Definition conforms (t : text) : Prop :=
  exists ts lat lon alt, entry_of t ts lat lon alt.

End Scanner.

(** ** The CoT object model (PyCoT), as far as the program fills it in *)

Module CoT.

Section WithFloat.

Variable F : Type.

Record Point : Type := {
  lat : F;
  lon : F;
  hae : F;
  ce : Z;
  le : Z
}.

Record Event : Type := {
  version : string;
  type : string;
  access : string;
  uid : string;
  time : datetime;
  start : datetime;
  stale : datetime;
  how : string;
  qos : string;
  point : Point;
  detail_contact_callsign : string
}.

End WithFloat.

End CoT.

(** ** The program *)

Module Replay.

Import Re Scanner.

Definition TAK_IP : string := "192.168.1.17".
Definition TAK_PORT : Z := 8089.
Definition SAT_ID : N := 6073.
Definition SAT_NAME : string := "COSMOS 482 DESCENT CRAFT".
Definition REFRESH_INTERVAL : Z := 10.

(** The log file as [open] and the iteration over it find it: [open]
    raises, or the file yields its lines and then ends or raises (bytes
    that do not decode, an I/O error). *)
Inductive file_state : Type :=
| Unopenable (e : exn)
| Readable (lines : list text) (broken : option exn).

(** What [recv(1024).decode("utf-8")] meets. *)
Inductive reply : Type :=
| Reply (response : text)   (* bytes that decode to [response] *)
| Undecodable               (* bytes that are not UTF-8 *)
| RecvRaises (e : exn).     (* socket.timeout after one second, or an error *)

(** How the network treats one socket: each operation succeeds or raises. *)
Record session : Type := {
  on_wrap : option exn;      (* ssl_context.wrap_socket *)
  on_connect : option exn;   (* connect: TCP connection and TLS handshake *)
  on_sendall : option exn;
  on_recv : reply
}.

(** A socket is named by its rank among the sockets created. *)
Definition socket : Type := nat.

Section Program.

(** Python's [float] on the text of a decimal literal, and PyCoT's
    serializer [Event.xml] with its validation, both taken as given. *)
Variable F : Type.
Variable float : text -> F.
Variable xml : CoT.Event F -> result text.

(** (timestamp, lat, lon, alt) *)
Definition position : Type := datetime * F * F * F.

(** The texts the program prints and logs. *)
Inductive message : Type :=
| LogFileNotFound                 (* Log file not found: <LOG_FILE> *)
| ErrorLogFileNotFound            (* Error: Log file not found: <LOG_FILE> *)
| ErrorParsingLogFile (e : exn)   (* Error parsing log file: <e> *)
| PositionMessage (lat lon alt : F) (timestamp : datetime)
| SentResponse (response : text)  (* Sent SSL CoT to <ip>:<port>, Response: <r> *)
| SentNoResponse                  (* Sent SSL CoT to <ip>:<port>, No response *)
| SSLConnectionError (e : exn)    (* SSL connection error to TAK server: <e> *)
| UnexpectedErrorSending (e : exn)   (* Unexpected error sending CoT: <e> *)
| FailedToSend                    (* Failed to send CoT, continuing to next position *)
| EnterTimeRange
| StartMustBeBeforeEnd            (* Error: Start time must be before end time *)
| StartIsNotBeforeEnd             (* Start time is not before end time *)
| NoPositionsInLog                (* No positions found in the log for ... *)
| NoPositionsForRange             (* No positions found for the specified ... *)
| FoundPositions (n : nat)
| ErrorInvalidDateFormat (e : exn)
| InvalidDateFormat (e : exn)
| UnexpectedError (e : exn).

(** What a run does to the world outside, in order. *)
Inductive event : Type :=
| Printed (m : message)
| LoggedInfo (m : message)
| LoggedError (m : message)
| Created (s : socket)                 (* socket.socket *)
| Wrapped (s : socket)                 (* wrap_socket *)
| Connected (s : socket)
| TimeoutSet (s : socket) (seconds : Z)
| SentAll (s : socket) (payload : text)
| Received (s : socket)
| Closed (s : socket)
| Slept (seconds : Z).

Record world : Type := {
  log_file : file_state;        (* LOG_FILE *)
  network : socket -> session;  (* what each socket will meet *)
  sockets : nat;                (* sockets created so far *)
  trace : list event
}.

(** Statements: they run in a world, change it, and return or raise. *)
Definition M (A : Type) : Type := world -> result A * world.

Definition mret {A : Type} (a : A) : M A := fun w => (inr a, w).

Definition mbind {A B : Type} (c : M A) (k : A -> M B) : M B :=
  fun w =>
    match c w with
    | (inl e, w') => (inl e, w')
    | (inr a, w') => k a w'
    end.

Definition lift {A : Type} (r : result A) : M A := fun w => (r, w).

(** [try: body  except ...: handler]: [handler e] is [None] when no
    clause catches [e]. *)
Definition try_except {A : Type} (body : M A) (handler : exn -> option (M A)) : M A :=
  fun w =>
    match body w with
    | (inl e, w') =>
        match handler e with
        | Some h => h w'
        | None => (inl e, w')
        end
    | (inr a, w') => (inr a, w')
    end.

Declare Scope io_scope.
Delimit Scope io_scope with io.

Notation "x <- c ;; k" := (mbind c (fun x => k))
  (at level 61, c at next level, right associativity) : io_scope.
Notation "c ;; k" := (mbind c (fun _ => k))
  (at level 61, right associativity) : io_scope.

(** The world after the events [evs]. *)
Definition record_events (evs : list event) (w : world) : world :=
  {| log_file := log_file w; network := network w; sockets := sockets w;
     trace := trace w ++ evs |}.

Definition emit (ev : event) : M unit :=
  fun w => (inr tt, record_events [ev] w).

Definition print (m : message) : M unit := emit (Printed m).
Definition logging_info (m : message) : M unit := emit (LoggedInfo m).
Definition logging_error (m : message) : M unit := emit (LoggedError m).
Definition time_sleep (seconds : Z) : M unit := emit (Slept seconds).

(** *** parse_log_for_positions *)

(** The body of the [for line in file] loop, lines 52-58, with
    [positions] the list built so far. *)
Fixpoint scan_lines (start_time end_time : datetime) (lines : list text)
    (positions : list position) : result (list position) :=
  match lines with
  | [] => ret positions
  | line :: rest =>
      match search cot_regex line with
      | Some [timestamp_str; lat; lon; alt] =>
          (timestamp <- parse_date timestamp_str ;;
           inside <- between start_time timestamp end_time ;;
           if inside
           then scan_lines start_time end_time rest
                  (positions ++ [(timestamp, float lat, float lon, float alt)])
           else scan_lines start_time end_time rest positions)%result
      | Some _ => raise ValueError   (* unpacking other than four groups *)
      | None => scan_lines start_time end_time rest positions
      end
  end.

(** The [with open(LOG_FILE)] block, lines 51-58. *)
Definition scan_file (file : file_state) (start_time end_time : datetime)
    : result (list position) :=
  match file with
  | Unopenable e => raise e
  | Readable lines broken =>
      (positions <- scan_lines start_time end_time lines [] ;;
       match broken with
       | Some e => raise e
       | None => ret positions
       end)%result
  end.

Definition parse_log_for_positions (start_time end_time : datetime)
    : M (list position) :=
  (try_except
     (fun w => (scan_file (log_file w) start_time end_time, w))
     (fun e =>
        match e with
        | FileNotFoundError =>
            Some (logging_error LogFileNotFound ;;
                  print ErrorLogFileNotFound ;;
                  mret [])
        | _ =>                                  (* except Exception *)
            Some (logging_error (ErrorParsingLogFile e) ;;
                  print (ErrorParsingLogFile e) ;;
                  mret [])
        end))%io.

(** *** send_cot_to_tak *)

(** [socket.socket(AF_INET, SOCK_STREAM)], taken to succeed. *)
Definition socket_socket : M socket :=
  fun w =>
    (inr (sockets w),
     {| log_file := log_file w; network := network w;
        sockets := S (sockets w);
        trace := trace w ++ [Created (sockets w)] |}).

(** An operation on socket [s] that the network lets through, leaving
    [ev], or fails with an exception. *)
Definition socket_op (outcome : session -> option exn) (s : socket) (ev : event)
    : M unit :=
  fun w =>
    match outcome (network w s) with
    | Some e => (inl e, w)
    | None => emit ev w
    end.

Definition wrap_socket (s : socket) : M socket :=
  (socket_op on_wrap s (Wrapped s) ;; mret s)%io.

Definition connect (s : socket) : M unit := socket_op on_connect s (Connected s).

Definition settimeout (s : socket) (seconds : Z) : M unit :=
  emit (TimeoutSet s seconds).

Definition sendall (s : socket) (payload : text) : M unit :=
  socket_op on_sendall s (SentAll s payload).

(** [s.recv(1024).decode("utf-8")] *)
Definition recv_decode (s : socket) : M text :=
  fun w =>
    match on_recv (network w s) with
    | Reply response => (emit (Received s) ;; mret response)%io w
    | Undecodable => (emit (Received s) ;; lift (raise UnicodeDecodeError))%io w
    | RecvRaises e => (inl e, w)
    end.

Definition close (s : socket) : M unit := emit (Closed s).

(** The event built at lines 82-101. *)
Definition cot_event (lat lon alt : F) (timestamp stale : datetime) : CoT.Event F :=
  {| CoT.version := "2.0";
     CoT.type := "a-n-G-U-U-S-R-S";
     CoT.access := "Undefined";
     CoT.uid := "SAT." ++ NilEmpty.string_of_uint (N.to_uint SAT_ID);
     CoT.time := timestamp;
     CoT.start := timestamp;
     CoT.stale := stale;
     CoT.how := "m-g";
     CoT.qos := "2-i-c";
     CoT.point := {| CoT.lat := lat; CoT.lon := lon; CoT.hae := alt;
                     CoT.ce := 9999999; CoT.le := 9999999 |};
     CoT.detail_contact_callsign := SAT_NAME |}.

Definition send_cot_to_tak (lat lon alt : F) (timestamp : datetime) : M bool :=
  (try_except
     (sock <- socket_socket ;;
      wrapped_sock <- wrap_socket sock ;;
      connect wrapped_sock ;;
      settimeout wrapped_sock 1 ;;
      stale <- lift (Datetime.add timestamp (timedelta_minutes 5)) ;;
      payload <- lift (xml (cot_event lat lon alt timestamp stale)) ;;
      sendall wrapped_sock payload ;;
      print (PositionMessage lat lon alt timestamp) ;;
      logging_info (PositionMessage lat lon alt timestamp) ;;
      log_message <-
        try_except
          (response <- recv_decode wrapped_sock ;; mret (SentResponse response))
          (fun e =>
             match e with
             | SocketTimeout => Some (mret SentNoResponse)
             | _ => None
             end) ;;
      print log_message ;;
      logging_info log_message ;;
      close wrapped_sock ;;
      mret true)
     (fun e =>
        match e with
        | ConnectionRefusedError | SSLError =>
            Some (print (SSLConnectionError e) ;;
                  logging_error (SSLConnectionError e) ;;
                  mret false)
        | _ =>                                  (* except Exception *)
            Some (print (UnexpectedErrorSending e) ;;
                  logging_error (UnexpectedErrorSending e) ;;
                  mret false)
        end))%io.

(** *** main *)

(** The loop at lines 159-164. *)
Fixpoint replay (positions : list position) : M unit :=
  match positions with
  | [] => mret tt
  | (timestamp, lat, lon, alt) :: rest =>
      (sent <- send_cot_to_tak lat lon alt timestamp ;;
       (if sent
        then time_sleep REFRESH_INTERVAL
        else print FailedToSend ;; logging_error FailedToSend) ;;
       replay rest)%io
  end.

(** [main], given what [parse_date] makes of the two texts the user
    typed. *)
Definition main (start_input end_input : result datetime) : M unit :=
  (print EnterTimeRange ;;
   try_except
     (start_time <- lift start_input ;;
      end_time <- lift end_input ;;
      not_before <- lift (Datetime.ge start_time end_time) ;;
      if (not_before : bool)
      then print StartMustBeBeforeEnd ;; logging_error StartIsNotBeforeEnd
      else
        positions <- parse_log_for_positions start_time end_time ;;
        match positions with
        | [] => print NoPositionsInLog ;; logging_info NoPositionsForRange
        | _ :: _ =>
            print (FoundPositions (List.length positions)) ;;
            logging_info (FoundPositions (List.length positions)) ;;
            replay positions
        end)
     (fun e =>
        match e with
        | ValueError | UnicodeDecodeError =>     (* except ValueError *)
            Some (print (ErrorInvalidDateFormat e) ;;
                  logging_error (InvalidDateFormat e))
        | _ =>                                   (* except Exception *)
            Some (print (UnexpectedError e) ;; logging_error (UnexpectedError e))
        end))%io.

(** The sockets of a trace that were created and not closed. *)
Fixpoint open_sockets (tr : list event) (acc : list socket) : list socket :=
  match tr with
  | [] => acc
  | Created s :: tr' => open_sockets tr' (acc ++ [s])
  | Closed s :: tr' => open_sockets tr' (remove Nat.eq_dec s acc)
  | _ :: tr' => open_sockets tr' acc
  end.

(** *** What the properties below are stated with *)

(** The records a scan owes for a list of lines: one for each line that
    matches with a timestamp inside the window, in the order of the lines,
    and none for any other line. *)
Inductive Selected (start_time end_time : datetime)
  : list text -> list position -> Prop :=
| Selected_end : Selected start_time end_time [] []
| Selected_inside line lines ts lat lon alt t ps :
    search cot_regex line = Some [ts; lat; lon; alt] ->
    parse_date ts = inr t ->
    (instant start_time <= instant t <= instant end_time)%Z ->
    Selected start_time end_time lines ps ->
    Selected start_time end_time (line :: lines)
      ((t, float lat, float lon, float alt) :: ps)
| Selected_outside line lines ts lat lon alt t ps :
    search cot_regex line = Some [ts; lat; lon; alt] ->
    parse_date ts = inr t ->
    ~ (instant start_time <= instant t <= instant end_time)%Z ->
    Selected start_time end_time lines ps ->
    Selected start_time end_time (line :: lines) ps
| Selected_no_match line lines ps :
    search cot_regex line = None ->
    Selected start_time end_time lines ps ->
    Selected start_time end_time (line :: lines) ps.

(** The message of the [except] clause that catches [e]. *)
Definition failure_report (e : exn) : message :=
  match e with
  | ConnectionRefusedError | SSLError => SSLConnectionError e
  | _ => UnexpectedErrorSending e
  end.

(** The exception a call meets first, going through its steps in order,
    if it meets one.  A timeout of the response read is none. *)
Definition send_failure (sess : session) (lat lon alt : F) (timestamp : datetime)
    : option exn :=
  match on_wrap sess with
  | Some e => Some e
  | None =>
  match on_connect sess with
  | Some e => Some e
  | None =>
  match Datetime.add timestamp (timedelta_minutes 5) with
  | inl e => Some e
  | inr stale =>
  match xml (cot_event lat lon alt timestamp stale) with
  | inl e => Some e
  | inr _ =>
  match on_sendall sess with
  | Some e => Some e
  | None =>
  match on_recv sess with
  | Reply _ => None
  | Undecodable => Some UnicodeDecodeError
  | RecvRaises SocketTimeout => None
  | RecvRaises e => Some e
  end end end end end end.

Definition is_none {A : Type} (o : option A) : bool :=
  match o with None => true | Some _ => false end.

(** The world after a call that created one socket and left [evs]. *)
Definition after_send (evs : list event) (w : world) : world :=
  {| log_file := log_file w; network := network w;
     sockets := S (sockets w); trace := trace w ++ evs |}.

(** What the [except] clause that catches [e] prints and logs. *)
Definition reported (e : exn) : list event :=
  [Printed (failure_report e); LoggedError (failure_report e)].

(** The events of one call on socket [s], path by path. *)
Definition send_events (s : socket) (sess : session) (lat lon alt : F)
    (timestamp : datetime) : list event :=
  Created s ::
  match on_wrap sess with
  | Some e => reported e
  | None =>
  Wrapped s ::
  match on_connect sess with
  | Some e => reported e
  | None =>
  Connected s :: TimeoutSet s 1 ::
  match Datetime.add timestamp (timedelta_minutes 5) with
  | inl e => reported e
  | inr stale =>
  match xml (cot_event lat lon alt timestamp stale) with
  | inl e => reported e
  | inr payload =>
  match on_sendall sess with
  | Some e => reported e
  | None =>
  SentAll s payload ::
  Printed (PositionMessage lat lon alt timestamp) ::
  LoggedInfo (PositionMessage lat lon alt timestamp) ::
  match on_recv sess with
  | Reply response =>
      [Received s; Printed (SentResponse response);
       LoggedInfo (SentResponse response); Closed s]
  | Undecodable => Received s :: reported UnicodeDecodeError
  | RecvRaises SocketTimeout =>
      [Printed SentNoResponse; LoggedInfo SentNoResponse; Closed s]
  | RecvRaises e => reported e
  end end end end end end.

Definition is_slept (ev : event) : bool :=
  match ev with Slept seconds => (seconds =? REFRESH_INTERVAL)%Z | _ => false end.

Definition is_closed (ev : event) : bool :=
  match ev with Closed _ => true | _ => false end.

Definition is_created (ev : event) : bool :=
  match ev with Created _ => true | _ => false end.

Definition is_failed_to_send (ev : event) : bool :=
  match ev with LoggedError FailedToSend => true | _ => false end.

(** What the [except] clauses of [main] print and log for [e]. *)
Definition main_report (e : exn) : list event :=
  match e with
  | ValueError | UnicodeDecodeError =>
      [Printed (ErrorInvalidDateFormat e); LoggedError (InvalidDateFormat e)]
  | _ => [Printed (UnexpectedError e); LoggedError (UnexpectedError e)]
  end.

Definition is_written (ev : event) : bool :=
  match ev with SentAll _ _ => true | _ => false end.

Definition is_position_logged (ev : event) : bool :=
  match ev with LoggedInfo (PositionMessage _ _ _ _) => true | _ => false end.

(** How often events of a kind occur. *)
Definition count (kind : event -> bool) (evs : list event) : nat :=
  List.length (filter kind evs).

(** The timestamp of a record, and whether it lies in a window of naive
    datetimes. *)
Definition position_time (p : position) : datetime := fst (fst (fst p)).

Definition in_window (start_time end_time : datetime) (p : position) : bool :=
  (instant start_time <=? instant (position_time p))%Z
  && (instant (position_time p) <=? instant end_time)%Z.

(** What the loop of [main] leaves behind, record by record, when the
    sockets created so far number [n]. *)
Fixpoint replay_events (net : socket -> session) (n : nat)
    (positions : list position) : list event :=
  match positions with
  | [] => []
  | (timestamp, lat, lon, alt) :: rest =>
      send_events n (net n) lat lon alt timestamp ++
      (if is_none (send_failure (net n) lat lon alt timestamp)
       then [Slept REFRESH_INTERVAL]
       else [Printed FailedToSend; LoggedError FailedToSend]) ++
      replay_events net (S n) rest
  end.

(** The operations on a socket, and the order the sender keeps among
    them: created, wrapped, connected, timeout set, written to, read from
    (unless the read times out), closed. *)
Inductive operation : Type :=
| OpCreate | OpWrap | OpConnect | OpTimeout | OpSend | OpRecv | OpClose.

Definition socket_use (ev : event) : option (socket * operation) :=
  match ev with
  | Created s => Some (s, OpCreate)
  | Wrapped s => Some (s, OpWrap)
  | Connected s => Some (s, OpConnect)
  | TimeoutSet s _ => Some (s, OpTimeout)
  | SentAll s _ => Some (s, OpSend)
  | Received s => Some (s, OpRecv)
  | Closed s => Some (s, OpClose)
  | _ => None
  end.

Inductive phase : Type :=
| Fresh | Made | Secured | Joined | Timed | Written | Answered | Shut.

Definition next_phase (ph : phase) (op : operation) : option phase :=
  match ph, op with
  | Fresh, OpCreate => Some Made
  | Made, OpWrap => Some Secured
  | Secured, OpConnect => Some Joined
  | Joined, OpTimeout => Some Timed
  | Timed, OpSend => Some Written
  | Written, OpRecv => Some Answered
  | Written, OpClose => Some Shut
  | Answered, OpClose => Some Shut
  | _, _ => None
  end.

(** The phase socket [s] reaches through the events [tr] from phase [ph];
    [None] when an operation on [s] comes out of order. *)
Fixpoint follows (s : socket) (ph : phase) (tr : list event) : option phase :=
  match tr with
  | [] => Some ph
  | ev :: tr' =>
      match socket_use ev with
      | Some (s', op) =>
          if Nat.eqb s' s
          then match next_phase ph op with
               | Some ph' => follows s ph' tr'
               | None => None
               end
          else follows s ph tr'
      | None => follows s ph tr'
      end
  end.

End Program.

Arguments Created {F} s.
Arguments Wrapped {F} s.
Arguments Connected {F} s.
Arguments TimeoutSet {F} s seconds.
Arguments SentAll {F} s payload.
Arguments Received {F} s.
Arguments Closed {F} s.
Arguments Slept {F} seconds.
Arguments LogFileNotFound {F}.
Arguments ErrorLogFileNotFound {F}.
Arguments ErrorParsingLogFile {F} e.
Arguments SentResponse {F} response.
Arguments SentNoResponse {F}.
Arguments SSLConnectionError {F} e.
Arguments UnexpectedErrorSending {F} e.
Arguments FailedToSend {F}.
Arguments EnterTimeRange {F}.
Arguments StartMustBeBeforeEnd {F}.
Arguments StartIsNotBeforeEnd {F}.
Arguments NoPositionsInLog {F}.
Arguments NoPositionsForRange {F}.
Arguments FoundPositions {F} n.
Arguments ErrorInvalidDateFormat {F} e.
Arguments InvalidDateFormat {F} e.
Arguments UnexpectedError {F} e.
Arguments failure_report {F} e.
Arguments reported {F} e.
Arguments is_slept {F} ev.
Arguments is_closed {F} ev.
Arguments is_created {F} ev.
Arguments is_failed_to_send {F} ev.
Arguments is_written {F} ev.
Arguments main_report {F} e.
Arguments is_position_logged {F} ev.

(** *** The program at concrete inputs

    Floats are shown by their literal and the serializer accepts every
    event. *)

Definition literal (t : text) : text := t.

Definition xml_accepting (ev : CoT.Event text) : result text :=
  ret (txt "<event/>").

(** A naive datetime, written as a log timestamp. *)
Definition at_time (s : string) : datetime :=
  match parse_date (txt s) with
  | inr t => t
  | inl _ => mk_datetime 0 None
  end.

Definition nine : datetime := at_time "2025-05-01 09:00:00,000".
Definition ten : datetime := at_time "2025-05-01 10:00:00,000".
Definition eleven : datetime := at_time "2025-05-01 11:00:00,000".

(** A server that accepts the connection and what is sent, and answers
    the read with [r]. *)
Definition answering (r : reply) : session :=
  {| on_wrap := None; on_connect := None; on_sendall := None; on_recv := r |}.

Definition fresh_world (file : file_state) (net : socket -> session) : world text :=
  {| log_file := file; network := net; sockets := 0; trace := [] |}.

(** The line of the specification's scenario, and the same line as the
    sender itself logs it (line 107 under the format of line 15). *)
Definition entry_line : text :=
  txt "2025-05-01 10:00:00,000 - INFO - CoT for X: lat=12.34, lon=56.78, alt=100.0".

Definition logged_line : text :=
  txt "2025-05-01 10:00:00,000 - INFO - CoT for COSMOS 482 DESCENT CRAFT: lat=12.34, lon=56.78, alt=100.0, time=2025-05-01 10:00:00".

Definition half_past_line : text :=
  txt "2025-05-01 10:00:00,500 - INFO - CoT for X: lat=12.34, lon=56.78, alt=100.0".

Definition noon_line : text :=
  txt "2025-05-01 12:00:00,000 - INFO - CoT for X: lat=-1.5, lon=2.25, alt=90.0".

(** A line the pattern matches whose date is no day of the calendar. *)
Definition february30_line : text :=
  txt "2025-02-30 10:00:00,000 - INFO - CoT for X: lat=12.34, lon=56.78, alt=100.0".


End Replay.

(** * Properties *)

(** ** The matcher computes the language *)

Module ReFacts.

Import Re.


Lemma take_exactly_sound n cl : forall s m rest,
  take_exactly n cl s = Some (m, rest) ->
  s = m ++ rest /\ List.length m = n /\ forallb (accepts cl) m = true.
Proof.
  induction n as [|n IH]; intros s m rest; simpl.
  - intros H; inversion H; subst; auto.
  - destruct s as [|a s]; [discriminate|].
    destruct (accepts cl a) eqn:Ha; [|discriminate].
    destruct (take_exactly n cl s) as [[m' r']|] eqn:Ht; [|discriminate].
    intros H; inversion H; subst.
    apply IH in Ht as (-> & Hl & Hf). simpl. rewrite Ha, Hf, Hl. auto.
Qed.

Lemma take_exactly_complete cl rest : forall m,
  forallb (accepts cl) m = true ->
  take_exactly (List.length m) cl (m ++ rest) = Some (m, rest).
Proof.
  induction m as [|a m IH]; simpl; [reflexivity|].
  intros H. apply andb_true_iff in H as [Ha Hf].
  rewrite Ha, (IH Hf). reflexivity.
Qed.

Lemma take_exactly_spec n cl s m rest :
  take_exactly n cl s = Some (m, rest) <->
  s = m ++ rest /\ List.length m = n /\ forallb (accepts cl) m = true.
Proof.
  split; [apply take_exactly_sound|].
  intros (-> & <- & Hf). now apply take_exactly_complete.
Qed.

Lemma greedy_spec cl s m rest :
  In (m, rest) (greedy cl s) <-> s = m ++ rest /\ forallb (accepts cl) m = true.
Proof.
  revert m rest; induction s as [|a s IH]; intros m rest; simpl.
  - split.
    + intros [H|[]]; inversion H; subst; auto.
    + intros (H & _). symmetry in H. apply app_eq_nil in H as [-> ->]. auto.
  - destruct (accepts cl a) eqn:Ha.
    + rewrite in_app_iff, in_map_iff. split.
      * intros [((m', r') & E & Hin)|[E|[]]].
        -- simpl in E. inversion E; subst. apply IH in Hin as (-> & Hf).
           simpl. rewrite Ha, Hf. auto.
        -- inversion E; subst. auto.
      * intros (H & Hf). destruct m as [|b m].
        -- simpl in H. subst rest. right; left; reflexivity.
        -- simpl in H, Hf. inversion H; subst.
           apply andb_true_iff in Hf as [_ Hf].
           left. exists (m, rest). split; [reflexivity|]. apply IH; auto.
    + split.
      * intros [E|[]]. inversion E; subst. auto.
      * intros (H & Hf). destruct m as [|b m].
        -- simpl in H; subst; simpl; auto.
        -- simpl in H, Hf. inversion H; subst. rewrite Ha in Hf. discriminate.
Qed.

Lemma strip_prefix_spec p s rest :
  strip_prefix p s = Some rest <-> s = p ++ rest.
Proof.
  revert s; induction p as [|c p IH]; intros s; simpl.
  - split; [intros H; inversion H; auto | intros ->; auto].
  - destruct s as [|a s]; [split; discriminate|].
    destruct (Ascii.eqb a c) eqn:E.
    + apply Ascii.eqb_eq in E; subst. rewrite IH. split; [intros ->; auto|].
      intros H; inversion H; auto.
    + apply Ascii.eqb_neq in E. split; [discriminate|].
      intros H; inversion H; congruence.
Qed.

Lemma nonempty_true (t : text) : nonempty t = true <-> t <> [].
Proof. destruct t; simpl; split; congruence. Qed.

(** Soundness and completeness of [run]: its attempts are exactly the
    splits of the text into a word of the language and a remainder. *)
Theorem run_spec r : forall s m g rest,
  In (m, g, rest) (run r s) <-> s = m ++ rest /\ Matches r m g.
Proof.
  induction r as [cl|n cl|cl|cl|cl|t|r1 IH1 r2 IH2|r IH]; intros s m g rest; simpl.
  - destruct s as [|a s]; simpl.
    + split; [intros []|]. intros (H & HM). inversion HM; subst. discriminate.
    + destruct (accepts cl a) eqn:Ha; simpl.
      * split.
        -- intros [E|[]]; inversion E; subst. split; auto. constructor; auto.
        -- intros (H & HM). inversion HM; subst. inversion H; subst. auto.
      * split; [intros []|]. intros (H & HM). inversion HM; subst.
        inversion H; subst. congruence.
  - destruct (take_exactly n cl s) as [[m' r']|] eqn:Ht.
    + apply take_exactly_spec in Ht as Ht'. destruct Ht' as (-> & Hl & Hf). split.
      * intros [E|[]]. inversion E; subst. split; auto. constructor; auto.
      * intros (H & HM). inversion HM; subst.
        assert (E : take_exactly (List.length m) cl (m' ++ r') = Some (m, rest))
          by (apply take_exactly_spec; auto).
        left. congruence.
    + split; [intros []|]. intros (H & HM). inversion HM; subst.
      assert (E : take_exactly (List.length m) cl (m ++ rest) = Some (m, rest))
        by (apply take_exactly_spec; auto).
      congruence.
  - rewrite in_map_iff. split.
    + intros ((m', r') & E & Hin). simpl in E. inversion E; subst.
      apply greedy_spec in Hin as (-> & Hf). split; auto. constructor; auto.
    + intros (H & HM). inversion HM; subst. exists (m, rest). split; auto.
      apply greedy_spec; auto.
  - rewrite in_map_iff. split.
    + intros ((m', r') & E & Hin). simpl in E. inversion E; subst.
      apply filter_In in Hin as (Hin & Hne). simpl in Hne.
      apply greedy_spec in Hin as (-> & Hf). split; auto.
      constructor; auto. apply nonempty_true; auto.
    + intros (H & HM). inversion HM; subst. exists (m, rest). split; auto.
      apply filter_In. split; [apply greedy_spec; auto|].
      simpl. apply nonempty_true; auto.
  - destruct s as [|a s]; simpl.
    + split.
      * intros [E|[]]. inversion E; subst. split; auto. constructor.
      * intros (H & HM). symmetry in H. apply app_eq_nil in H as [-> ->].
        inversion HM; subst. auto.
    + destruct (accepts cl a) eqn:Ha; simpl.
      * split.
        -- intros [E|[E|[]]]; inversion E; subst; split; auto; constructor; auto.
        -- intros (H & HM). inversion HM; subst; simpl in H.
           ++ subst; auto.
           ++ inversion H; subst; auto.
      * split.
        -- intros [E|[]]; inversion E; subst; split; auto; constructor.
        -- intros (H & HM). inversion HM; subst; simpl in H.
           ++ subst; auto.
           ++ inversion H; subst. congruence.
  - destruct (strip_prefix t s) as [r'|] eqn:Hs.
    + apply strip_prefix_spec in Hs as ->. split.
      * intros [E|[]]. inversion E; subst. split; auto. constructor.
      * intros (H & HM). inversion HM; subst. apply app_inv_head in H. subst; left; auto.
    + split; [intros []|]. intros (H & HM). inversion HM; subst.
      assert (E : strip_prefix m (m ++ rest) = Some rest) by (apply strip_prefix_spec; auto).
      congruence.
  - rewrite in_flat_map. split.
    + intros (((m1, g1), s1) & H1 & H2). apply in_map_iff in H2.
      destruct H2 as (((m2, g2), s2) & E & H2). inversion E; subst.
      apply IH1 in H1 as (-> & HM1). apply IH2 in H2 as (-> & HM2).
      split; [now rewrite app_assoc|]. constructor; auto.
    + intros (H & HM). inversion HM; subst.
      exists (m1, g1, m2 ++ rest). split.
      * apply IH1. split; auto. now rewrite app_assoc.
      * apply in_map_iff. exists (m2, g2, rest). split; auto. apply IH2; auto.
  - rewrite in_map_iff. split.
    + intros (((m', g'), r') & E & Hin). inversion E; subst.
      apply IH in Hin as (-> & HM). split; auto. constructor; auto.
    + intros (H & HM). inversion HM; subst. exists (m, g0, rest). split; auto.
      apply IH; auto.
Qed.

(** [search] reports the groups of a match somewhere in the text... *)
Lemma search_sound r s g :
  search r s = Some g ->
  exists p m q, s = p ++ m ++ q /\ Matches r m g.
Proof.
  induction s as [|a s IH]; simpl.
  - destruct (run r []) as [|[[m g'] q] l] eqn:E; [discriminate|].
    intros H; inversion H; subst.
    assert (Hin : In (m, g, q) (run r [])) by (rewrite E; left; auto).
    apply run_spec in Hin as (Hs & HM). exists [], m, q. auto.
  - destruct (run r (a :: s)) as [|[[m g'] q] l] eqn:E.
    + intros H. apply IH in H as (p & m & q & -> & HM).
      exists (a :: p), m, q. auto.
    + intros H; inversion H; subst.
      assert (Hin : In (m, g, q) (run r (a :: s))) by (rewrite E; left; auto).
      apply run_spec in Hin as (Hs & HM). exists [], m, q. auto.
Qed.

(** ... and finds one whenever some part of the text is in the language. *)
Lemma search_complete r p m q g :
  Matches r m g -> exists g', search r (p ++ m ++ q) = Some g'.
Proof.
  intros HM. induction p as [|a p IH]; simpl.
  - assert (Hin : In (m, g, q) (run r (m ++ q))) by (apply run_spec; auto).
    destruct (m ++ q) as [|b t]; simpl;
      destruct (run r _) as [|[[m' g'] q'] l]; try contradiction; eauto.
  - destruct (run r (a :: p ++ m ++ q)) as [|[[m' g'] q'] l]; eauto.
Qed.

Lemma fullmatch_spec r s :
  fullmatch r s = true <-> exists g, Matches r s g.
Proof.
  unfold fullmatch. rewrite existsb_exists. split.
  - intros (((m, g), rest) & Hin & Hr). simpl in Hr.
    destruct rest; [|discriminate].
    apply run_spec in Hin as (-> & HM). rewrite app_nil_r. eauto.
  - intros (g & HM). exists (s, g, []). split; auto.
    apply run_spec. rewrite app_nil_r. auto.
Qed.

End ReFacts.

(** ** Facts about the scanner's pattern *)

Module Pattern.

Import Re Scanner ReFacts.

Lemma MCat_eq r1 r2 m1 m2 g1 g2 m g :
  Matches r1 m1 g1 -> Matches r2 m2 g2 ->
  g = g1 ++ g2 -> m = m1 ++ m2 ->
  Matches (r1 ~> r2) m g.
Proof. intros H1 H2 -> ->. now constructor. Qed.

(** A part without groups, then the rest. *)
Lemma MCat_plain r1 r2 m1 m2 g :
  Matches r1 m1 [] -> Matches r2 m2 g -> Matches (r1 ~> r2) (m1 ++ m2) g.
Proof. intros H1 H2. now apply (MCat H1 H2). Qed.

(** A group, then the rest. *)
Lemma MCat_group r1 r2 m1 m2 g :
  Matches r1 m1 [] -> Matches r2 m2 g ->
  Matches (Group r1 ~> r2) (m1 ++ m2) (m1 :: g).
Proof. intros H1 H2. apply (MCat (MGroup H1) H2). Qed.

Ltac inv_matches :=
  repeat match goal with
    | H : Matches (_ ~> _) _ _ |- _ => inversion H; clear H; subst
    | H : Matches (Str _) _ _ |- _ => inversion H; clear H; subst
    | H : Matches (Group _) _ _ |- _ => inversion H; clear H; subst
    | H : Matches (Exactly _ _) _ _ |- _ => inversion H; clear H; subst
    | H : Matches (Plus _) _ _ |- _ => inversion H; clear H; subst
    | H : Matches (Star _) _ _ |- _ => inversion H; clear H; subst
    | H : Matches (Opt _) _ _ |- _ => inversion H; clear H; subst
    end.

Lemma one_line_dots t : forallb (accepts Dot) t = true <-> one_line t.
Proof.
  unfold one_line. induction t as [|a t IH]; simpl.
  - split; auto.
  - rewrite andb_true_iff, IH, negb_true_iff, Ascii.eqb_neq. split.
    + intros [Ha Ht] [E|Hin]; [congruence | auto].
    + intros H. split; [intros E; apply H; auto | intros Hin; apply H; auto].
Qed.

Lemma decimal_re_language m g :
  Matches decimal_re m g <-> g = [] /\ unsigned_decimal m.
Proof.
  unfold decimal_re. split.
  - intros H. inv_matches. split; [reflexivity|].
    eexists _, _. repeat split; eauto.
  - intros (-> & i & f & -> & Hi & Di & Hf & Df).
    eapply MCat_eq; [apply MPlus; [exact Hi|exact Di]| |reflexivity|reflexivity].
    eapply MCat_eq; [apply MStr|apply MPlus; [exact Hf|exact Df]
                    |reflexivity|reflexivity].
Qed.

Lemma signed_decimal_re_language m g :
  Matches signed_decimal_re m g <-> g = [] /\ signed_decimal m.
Proof.
  unfold signed_decimal_re. split.
  - intros H. inversion H as [| | | | | | |? ? ? ? ? ? HO HD|]; clear H; subst.
    apply decimal_re_language in HD as (-> & HD).
    inversion HO; subst; (split; [reflexivity|]).
    + exists [], m2. auto.
    + exists [a], m2. repeat split; auto. right.
      simpl in *. apply Ascii.eqb_eq in H0. subst; reflexivity.
  - intros (-> & sign & u & -> & Hs & Hu).
    assert (HD : Matches decimal_re u []) by (apply decimal_re_language; auto).
    destruct Hs as [->| ->].
    + eapply MCat_eq; [apply MOptNone|exact HD|reflexivity|reflexivity].
    + eapply MCat_eq;
        [apply (MOptSome (Lit "-") "-"); reflexivity|exact HD|reflexivity|reflexivity].
Qed.

Lemma timestamp_re_language m g :
  Matches timestamp_re m g <-> g = [] /\ is_timestamp m.
Proof.
  unfold timestamp_re. split.
  - intros H. inv_matches. split; [reflexivity|].
    unfold is_timestamp, field, digits. do 7 eexists.
    split; [reflexivity|]. repeat split; auto.
  - intros (-> & Y & M & D & h & mi & s & ms & -> & HY & HM & HD & Hh & Hm & Hs & Hms).
    unfold field, digits in *.
    repeat (apply MCat_plain); constructor; tauto.
Qed.

(** The language of [cot_regex] is the line format, and its four groups
    are the timestamp, lat, lon and alt texts. *)
Lemma cot_regex_language m g :
  Matches cot_regex m g <->
  exists ts lat lon alt, g = [ts; lat; lon; alt] /\ entry_of m ts lat lon alt.
Proof.
  unfold cot_regex. split.
  - intros H.
    repeat match goal with
      | H : Matches (_ ~> _) _ _ |- _ => inversion H; clear H; subst
      | H : Matches (Str _) _ _ |- _ => inversion H; clear H; subst
      | H : Matches (Group _) _ _ |- _ => inversion H; clear H; subst
      | H : Matches (Star _) _ _ |- _ => inversion H; clear H; subst
      | H : Matches timestamp_re _ _ |- _ => apply timestamp_re_language in H as [-> H]
      | H : Matches signed_decimal_re _ _ |- _ =>
          apply signed_decimal_re_language in H as [-> H]
      | H : Matches decimal_re _ _ |- _ => apply decimal_re_language in H as [-> H]
      end.
    eexists _, _, _, _. split; [reflexivity|].
    eexists. split; [reflexivity|]. repeat split; auto.
    now apply one_line_dots.
  - intros (ts & lat & lon & alt & -> & name & -> & Hts & Hn & Hlat & Hlon & Halt).
    unfold position_entry.
    apply MCat_group; [apply timestamp_re_language; auto|].
    apply MCat_plain; [apply MStr|].
    apply MCat_plain; [apply MStar; now apply one_line_dots|].
    apply MCat_plain; [apply MStr|].
    apply MCat_group; [apply signed_decimal_re_language; auto|].
    apply MCat_plain; [apply MStr|].
    apply MCat_group; [apply signed_decimal_re_language; auto|].
    apply MCat_plain; [apply MStr|].
    apply MGroup. apply decimal_re_language; auto.
Qed.

(** A match found by [search] is a position entry somewhere in the line;
    the groups are its four texts. *)
Lemma search_cot_regex_groups line g :
  search cot_regex line = Some g ->
  exists before entry after ts lat lon alt,
    line = before ++ entry ++ after /\
    g = [ts; lat; lon; alt] /\ entry_of entry ts lat lon alt.
Proof.
  intros H. apply search_sound in H as (p & m & q & -> & HM).
  apply cot_regex_language in HM as (ts & lat & lon & alt & -> & He).
  exists p, m, q, ts, lat, lon, alt. auto.
Qed.

Lemma search_cot_regex_finds before entry after :
  conforms entry -> exists g, search cot_regex (before ++ entry ++ after) = Some g.
Proof.
  intros (ts & lat & lon & alt & He).
  apply search_complete with (g := [ts; lat; lon; alt]).
  apply cot_regex_language. eauto 6.
Qed.

Lemma conforms_fullmatch t : conforms t <-> fullmatch cot_regex t = true.
Proof.
  rewrite fullmatch_spec. split.
  - intros (ts & lat & lon & alt & He). exists [ts; lat; lon; alt].
    apply cot_regex_language. eauto 6.
  - intros (g & HM). apply cot_regex_language in HM as (ts & lat & lon & alt & _ & He).
    exists ts, lat, lon, alt. exact He.
Qed.

End Pattern.

(** ** Facts about datetimes *)

Module DatetimeFacts.

Local Open Scope Z_scope.

Lemma make_ok y mo d h mi s us t :
  make y mo d h mi s us = inr t ->
  t = mk_datetime (fields_instant y mo d h mi s us) None /\ 0 <= us <= 999999.
Proof.
  unfold make, fields_instant.
  destruct (in_range 0 us 999999) eqn:Hus.
  - destruct (_ && _); [|discriminate].
    intros H; inversion H; subst. split; [reflexivity|].
    unfold in_range in Hus. lia.
  - rewrite andb_false_r. discriminate.
Qed.



Lemma parse_date_eq y1 y2 y3 y4 i1 m1 m2 i2 d1 d2 i3 h1 h2 i4 n1 n2 i5 s1 s2 i6 u1 u2 u3 :
  parse_date [y1; y2; y3; y4; i1; m1; m2; i2; d1; d2; i3;
              h1; h2; i4; n1; n2; i5; s1; s2; i6; u1; u2; u3] =
  if forallb Re.is_digit
       [y1; y2; y3; y4; m1; m2; d1; d2; h1; h2; n1; n2; s1; s2; u1; u2; u3]
     && forallb (fun p => Ascii.eqb (fst p) (snd p))
          [(i1, "-"); (i2, "-"); (i3, " "); (i4, ":"); (i5, ":"); (i6, ",")]%char
  then make (int_of_digits [y1; y2; y3; y4]) (int_of_digits [m1; m2])
            (int_of_digits [d1; d2]) (int_of_digits [h1; h2])
            (int_of_digits [n1; n2]) (int_of_digits [s1; s2])
            (int_of_digits [u1; u2; u3] * 1000)
  else raise ValueError.
Proof. reflexivity. Qed.

(** The scanner's timestamps are naive. *)
Lemma parse_date_naive ts t : parse_date ts = inr t -> utcoffset t = None.
Proof.
  intros H.
  do 23 (destruct ts as [|? ts]; [discriminate H|]).
  destruct ts; [|discriminate H].
  rewrite parse_date_eq in H.
  destruct (_ && _); [|discriminate].
  apply make_ok in H as [-> _]. reflexivity.
Qed.

(** Between naive datetimes the window check compares the instants. *)
Lemma between_naive a t b :
  utcoffset a = None -> utcoffset t = None -> utcoffset b = None ->
  between a t b = inr ((instant a <=? instant t) && (instant t <=? instant b)).
Proof.
  intros Ha Ht Hb. unfold between, le. rewrite Ha, Ht, Hb. simpl.
  destruct (instant a <=? instant t); reflexivity.
Qed.



(** [parse_date] raises nothing but [ValueError]... *)
Lemma parse_date_raises ts e : parse_date ts = inl e -> e = ValueError.
Proof.
  intros H.
  do 23 (destruct ts as [|? ts]; [inversion H; reflexivity|]).
  destruct ts; [|inversion H; reflexivity].
  rewrite parse_date_eq in H.
  destruct (_ && _); [|inversion H; reflexivity].
  unfold make in H. destruct (_ && _); [discriminate|].
  inversion H; reflexivity.
Qed.

(** ... and the window check nothing but [TypeError]. *)
Lemma between_raises a t b e : between a t b = inl e -> e = TypeError.
Proof.
  unfold between, le.
  destruct (utcoffset a), (utcoffset t), (utcoffset b); cbn [bind];
    try (intros H; inversion H; reflexivity);
    try (destruct (_ <=? _); intros H; inversion H; reflexivity).
Qed.

End DatetimeFacts.

(** ** Properties of the program *)

Module ReplayFacts.

Import Re Scanner Replay ReFacts.

Section Facts.

Variable F : Type.
Variable float : text -> F.
Variable xml : CoT.Event F -> result text.

(** *** Properties of the scanner *)

Lemma record_events_nil (w : world F) : record_events [] w = w.
Proof. destruct w; unfold record_events; simpl. now rewrite app_nil_r. Qed.

Lemma record_events_app evs1 evs2 (w : world F) :
  record_events evs2 (record_events evs1 w) = record_events (evs1 ++ evs2) w.
Proof. unfold record_events; simpl. now rewrite app_assoc. Qed.

(** A match always carries the four groups of [cot_regex]. *)
Lemma search_four_groups line g :
  search cot_regex line = Some g -> exists ts lat lon alt, g = [ts; lat; lon; alt].
Proof.
  intros H. apply Pattern.search_cot_regex_groups in H
    as (_ & _ & _ & ts & lat & lon & alt & _ & -> & _).
  eauto.
Qed.

(** One turn of the loop. *)
Lemma scan_lines_cons start_time end_time line rest positions :
  scan_lines float start_time end_time (line :: rest) positions =
  match search cot_regex line with
  | Some [timestamp_str; lat; lon; alt] =>
      bind (parse_date timestamp_str) (fun timestamp =>
      bind (between start_time timestamp end_time) (fun inside =>
      if (inside : bool)
      then scan_lines float start_time end_time rest
             (positions ++ [(timestamp, float lat, float lon, float alt)])
      else scan_lines float start_time end_time rest positions))
  | Some _ => raise ValueError
  | None => scan_lines float start_time end_time rest positions
  end.
Proof. reflexivity. Qed.

(** The loop over [l1 ++ l2] is the loop over [l1], then over [l2] unless
    the first raised. *)
Lemma scan_lines_app start_time end_time l1 l2 : forall positions,
  scan_lines float start_time end_time (l1 ++ l2) positions =
  bind (scan_lines float start_time end_time l1 positions)
       (scan_lines float start_time end_time l2).
Proof.
  induction l1 as [|line l1 IH]; intros positions; [reflexivity|].
  rewrite <- app_comm_cons, !scan_lines_cons.
  destruct (search cot_regex line) as [[|ts [|lat [|lon [|alt [|x g]]]]]|];
    try reflexivity; [|apply IH].
  destruct (parse_date ts) as [e|t]; cbn [bind]; [reflexivity|].
  destruct (between start_time t end_time) as [e|[|]]; cbn [bind];
    [reflexivity|apply IH|apply IH].
Qed.

(** What [parse_log_for_positions] does, by the outcome of the [try] block. *)
Lemma parse_log_for_positions_eq start_time end_time w :
  parse_log_for_positions float start_time end_time w =
  match scan_file float (log_file w) start_time end_time with
  | inr positions => (inr positions, w)
  | inl FileNotFoundError =>
      (inr [], record_events
                 [LoggedError LogFileNotFound; Printed ErrorLogFileNotFound] w)
  | inl e =>
      (inr [], record_events
                 [LoggedError (ErrorParsingLogFile e);
                  Printed (ErrorParsingLogFile e)] w)
  end.
Proof.
  unfold parse_log_for_positions, try_except.
  destruct (scan_file float (log_file w) start_time end_time) as [e|positions];
    [|reflexivity].
  destruct e; unfold mbind, logging_error, print, emit, mret;
    rewrite record_events_app; reflexivity.
Qed.

(** C2 (as amended): a line is a match exactly when some part of it, with
    any text before and after, is a position entry of the pattern; a line
    without such a part is passed over, changing nothing and raising
    nothing. *)
Theorem scanner_matches_embedded_entry line :
  ((exists g, search cot_regex line = Some g) <->
   (exists before entry after,
       line = before ++ entry ++ after /\ conforms entry)) /\
  (search cot_regex line = None ->
   forall start_time end_time rest positions,
     scan_lines float start_time end_time (line :: rest) positions =
     scan_lines float start_time end_time rest positions).
Proof.
  split.
  - split.
    + intros (g & H). apply Pattern.search_cot_regex_groups in H
        as (before & entry & after & ts & lat & lon & alt & -> & _ & He).
      exists before, entry, after. split; [reflexivity|].
      exists ts, lat, lon, alt. exact He.
    + intros (before & entry & after & -> & Hc).
      now apply Pattern.search_cot_regex_finds.
  - intros H start_time end_time rest positions.
    rewrite scan_lines_cons. now rewrite H.
Qed.


(** The loop raises nothing but the [ValueError] of a timestamp that is
    no date and the [TypeError] of a window bound that does not compare. *)
Lemma scan_lines_raises start_time end_time lines : forall positions e,
  scan_lines float start_time end_time lines positions = inl e ->
  e = ValueError \/ e = TypeError.
Proof.
  induction lines as [|line lines IH]; intros positions e; [discriminate|].
  rewrite scan_lines_cons.
  destruct (search cot_regex line) as [[|ts [|lat [|lon [|alt [|x g]]]]]|];
    try (intros H; inversion H; auto; fail); try apply IH.
  destruct (parse_date ts) as [e1|t] eqn:Ht; cbn [bind].
  - intros H; inversion H; subst. left.
    exact (DatetimeFacts.parse_date_raises _ Ht).
  - destruct (between start_time t end_time) as [e2|[|]] eqn:Hb; cbn [bind];
      try apply IH.
    intros H; inversion H; subst. right.
    exact (DatetimeFacts.between_raises _ _ _ Hb).
Qed.

(** With a matched line whose timestamp is no date among them, the loop
    over the lines raises, whatever the other lines are and whatever has
    been collected. *)
Lemma scan_lines_stops_at_bad_line start_time end_time lines line ts lat lon alt e :
  In line lines ->
  search cot_regex line = Some [ts; lat; lon; alt] ->
  parse_date ts = inl e ->
  forall positions,
  exists e', scan_lines float start_time end_time lines positions = inl e'.
Proof.
  intros Hin Hs Hp. induction lines as [|l lines IH]; [contradiction|].
  intros positions. rewrite scan_lines_cons.
  destruct Hin as [->|Hin].
  - rewrite Hs, Hp. cbn [bind]. eauto.
  - specialize (IH Hin).
    destruct (search cot_regex l) as [[|ts' [|lat' [|lon' [|alt' [|x g]]]]]|];
      try (eexists; reflexivity); try apply IH.
    destruct (parse_date ts') as [e1|t]; cbn [bind]; [eauto|].
    destruct (between start_time t end_time) as [e2|[|]]; cbn [bind];
      [eauto|apply IH|apply IH].
Qed.

(** The same with a matched line whose timestamp does not compare with
    the window's bounds. *)
Lemma scan_lines_stops_at_incomparable_line
    start_time end_time lines line ts lat lon alt t e :
  In line lines ->
  search cot_regex line = Some [ts; lat; lon; alt] ->
  parse_date ts = inr t ->
  between start_time t end_time = inl e ->
  forall positions,
  exists e', scan_lines float start_time end_time lines positions = inl e'.
Proof.
  intros Hin Hs Hp Hb. induction lines as [|l lines IH]; [contradiction|].
  intros positions. rewrite scan_lines_cons.
  destruct Hin as [->|Hin].
  - rewrite Hs, Hp. cbn [bind]. rewrite Hb. cbn [bind]. eauto.
  - specialize (IH Hin).
    destruct (search cot_regex l) as [[|ts' [|lat' [|lon' [|alt' [|x g]]]]]|];
      try (eexists; reflexivity); try apply IH.
    destruct (parse_date ts') as [e1|t']; cbn [bind]; [eauto|].
    destruct (between start_time t' end_time) as [e2|[|]]; cbn [bind];
      [eauto|apply IH|apply IH].
Qed.

(** Over lines that all scan, in a window of naive datetimes, the loop
    collects the records owed for them. *)
Lemma scan_lines_of_selected start_time end_time lines collected :
  utcoffset start_time = None -> utcoffset end_time = None ->
  Selected float start_time end_time lines collected ->
  forall positions,
    scan_lines float start_time end_time lines positions
    = inr (positions ++ collected).
Proof.
  intros Hs He Hsel.
  induction Hsel as [|line lines ts lat lon alt t ps Hm Hp Hin _ IH
                     |line lines ts lat lon alt t ps Hm Hp Hout _ IH
                     |line lines ps Hm _ IH]; intros positions.
  - cbn. now rewrite app_nil_r.
  - rewrite scan_lines_cons, Hm, Hp. cbn [bind].
    pose proof (DatetimeFacts.parse_date_naive _ Hp) as Hn.
    rewrite DatetimeFacts.between_naive by assumption. cbn [bind].
    replace (_ && _) with true
      by (symmetry; apply andb_true_iff; split; apply Z.leb_le; lia).
    rewrite IH, <- app_assoc. reflexivity.
  - rewrite scan_lines_cons, Hm, Hp. cbn [bind].
    pose proof (DatetimeFacts.parse_date_naive _ Hp) as Hn.
    rewrite DatetimeFacts.between_naive by assumption. cbn [bind].
    destruct (_ && _) eqn:E; [|apply IH].
    apply andb_true_iff in E as [E1 E2]. apply Z.leb_le in E1, E2.
    exfalso. apply Hout. split; assumption.
  - rewrite scan_lines_cons, Hm. apply IH.
Qed.

(** C5: a missing log file makes [parse_log_for_positions] return the
    empty list with the file reported as not found, and any other failure
    to open it returns the empty list with the error reported.  A file
    holding anywhere a matched line whose timestamp is no date gives the
    empty list and an error report, whatever its other lines are: the
    records of the lines before it are dropped and the lines after it are
    not scanned.  When the lines before it all scan, the error reported is
    that line's; and a read error after lines that all scan drops their
    records too.  A matched line whose timestamp does not compare with the
    bounds of the window empties the result in the same way.  In every
    case the exception is reported and the caller gets a list. *)
Theorem scan_errors_yield_empty start_time end_time w :
  (log_file w = Unopenable FileNotFoundError ->
   parse_log_for_positions float start_time end_time w =
   (inr [], record_events
              [LoggedError LogFileNotFound; Printed ErrorLogFileNotFound] w)) /\
  (forall e,
      log_file w = Unopenable e -> e <> FileNotFoundError ->
      parse_log_for_positions float start_time end_time w =
      (inr [], record_events
                 [LoggedError (ErrorParsingLogFile e);
                  Printed (ErrorParsingLogFile e)] w)) /\
  (forall lines broken line ts lat lon alt e,
      log_file w = Readable lines broken ->
      In line lines ->
      search cot_regex line = Some [ts; lat; lon; alt] ->
      parse_date ts = inl e ->
      exists e',
        parse_log_for_positions float start_time end_time w =
        (inr [], record_events
                   [LoggedError (ErrorParsingLogFile e');
                    Printed (ErrorParsingLogFile e')] w)) /\
  (forall before line after broken collected ts lat lon alt e,
      utcoffset start_time = None -> utcoffset end_time = None ->
      log_file w = Readable (before ++ line :: after) broken ->
      Selected float start_time end_time before collected ->
      search cot_regex line = Some [ts; lat; lon; alt] ->
      parse_date ts = inl e ->
      parse_log_for_positions float start_time end_time w =
      (inr [], record_events
                 [LoggedError (ErrorParsingLogFile e);
                  Printed (ErrorParsingLogFile e)] w)) /\
  (forall lines collected e,
      utcoffset start_time = None -> utcoffset end_time = None ->
      log_file w = Readable lines (Some e) -> e <> FileNotFoundError ->
      Selected float start_time end_time lines collected ->
      parse_log_for_positions float start_time end_time w =
      (inr [], record_events
                 [LoggedError (ErrorParsingLogFile e);
                  Printed (ErrorParsingLogFile e)] w)) /\
  (forall lines broken line ts lat lon alt t e,
      log_file w = Readable lines broken ->
      In line lines ->
      search cot_regex line = Some [ts; lat; lon; alt] ->
      parse_date ts = inr t ->
      between start_time t end_time = inl e ->
      exists e',
        parse_log_for_positions float start_time end_time w =
        (inr [], record_events
                   [LoggedError (ErrorParsingLogFile e');
                    Printed (ErrorParsingLogFile e')] w)).
Proof.
  split; [|split; [|split; [|split; [|split]]]].
  - intros H. now rewrite parse_log_for_positions_eq, H.
  - intros e H Hne. rewrite parse_log_for_positions_eq, H. cbn [scan_file raise].
    destruct e; try reflexivity. contradiction.
  - intros lines broken line ts lat lon alt e Hw Hin Hm Hp.
    rewrite parse_log_for_positions_eq, Hw. cbn [scan_file].
    destruct (@scan_lines_stops_at_bad_line start_time end_time lines line
                ts lat lon alt e Hin Hm Hp []) as [e' He'].
    rewrite He'. cbn [bind]. exists e'.
    destruct (scan_lines_raises _ _ _ _ He') as [->| ->]; reflexivity.
  - intros before line after broken collected ts lat lon alt e Hs He Hw Hsel Hm Hp.
    rewrite parse_log_for_positions_eq, Hw. cbn [scan_file].
    rewrite scan_lines_app.
    rewrite (@scan_lines_of_selected start_time end_time before collected
               Hs He Hsel []).
    cbn [bind app]. rewrite scan_lines_cons, Hm, Hp. cbn [bind].
    rewrite (DatetimeFacts.parse_date_raises _ Hp). reflexivity.
  - intros lines collected e Hs He Hw Hne Hsel.
    rewrite parse_log_for_positions_eq, Hw. cbn [scan_file].
    rewrite (@scan_lines_of_selected start_time end_time lines collected
               Hs He Hsel []).
    cbn [bind]. destruct e; try reflexivity. contradiction.
  - intros lines broken line ts lat lon alt t e Hw Hin Hm Hp Hb.
    rewrite parse_log_for_positions_eq, Hw. cbn [scan_file].
    destruct (@scan_lines_stops_at_incomparable_line start_time end_time lines
                line ts lat lon alt t e Hin Hm Hp Hb []) as [e' He'].
    rewrite He'. cbn [bind]. exists e'.
    destruct (scan_lines_raises _ _ _ _ He') as [->| ->]; reflexivity.
Qed.

(** C8: a scan leaves the log file as it found it, so a second scan with
    the same window returns the same list in the same order. *)
Theorem scan_twice_same_positions start_time end_time w :
  log_file (snd (parse_log_for_positions float start_time end_time w)) = log_file w /\
  fst (parse_log_for_positions float start_time end_time
         (snd (parse_log_for_positions float start_time end_time w))) =
  fst (parse_log_for_positions float start_time end_time w).
Proof.
  assert (Hfile :
    log_file (snd (parse_log_for_positions float start_time end_time w)) = log_file w).
  { rewrite parse_log_for_positions_eq.
    destruct (scan_file float (log_file w) start_time end_time) as [[]|positions];
      reflexivity. }
  split; [exact Hfile|].
  rewrite (parse_log_for_positions_eq start_time end_time (snd _)), Hfile.
  rewrite (parse_log_for_positions_eq start_time end_time w).
  destruct (scan_file float (log_file w) start_time end_time) as [[]|positions];
    reflexivity.
Qed.

Lemma scan_lines_selected start_time end_time lines :
  utcoffset start_time = None -> utcoffset end_time = None ->
  (forall line ts lat lon alt,
      In line lines -> search cot_regex line = Some [ts; lat; lon; alt] ->
      exists t, parse_date ts = inr t) ->
  forall positions,
  exists ps,
    scan_lines float start_time end_time lines positions = inr (positions ++ ps) /\
    Selected float start_time end_time lines ps.
Proof.
  intros Hs He. induction lines as [|line lines IH]; intros Hvalid positions.
  - exists []. rewrite app_nil_r. split; [reflexivity|constructor].
  - assert (Hvalid' : forall line ts lat lon alt,
               In line lines -> search cot_regex line = Some [ts; lat; lon; alt] ->
               exists t, parse_date ts = inr t)
      by (intros; eapply Hvalid; [right|]; eassumption).
    specialize (IH Hvalid').
    rewrite scan_lines_cons.
    destruct (search cot_regex line) as [g|] eqn:Hsearch.
    + destruct (search_four_groups _ Hsearch) as (ts & lat & lon & alt & ->).
      destruct (Hvalid line ts lat lon alt (or_introl eq_refl) Hsearch) as [t Ht].
      rewrite Ht. cbn [bind].
      pose proof (DatetimeFacts.parse_date_naive _ Ht) as Hnaive.
      rewrite DatetimeFacts.between_naive by assumption.
      cbn [bind].
      destruct (_ && _) eqn:Hin.
      * destruct (IH (positions ++ [(t, float lat, float lon, float alt)]))
          as (ps & Hscan & Hsel).
        exists ((t, float lat, float lon, float alt) :: ps). split.
        -- rewrite Hscan, <- app_assoc. reflexivity.
        -- eapply Selected_inside; eauto.
           apply andb_true_iff in Hin as [H1 H2].
           apply Z.leb_le in H1, H2. auto.
      * destruct (IH positions) as (ps & Hscan & Hsel).
        exists ps. split; [exact Hscan|].
        eapply Selected_outside; eauto.
        intros [H1 H2]. apply Z.leb_le in H1, H2. rewrite H1, H2 in Hin.
        discriminate.
    + destruct (IH positions) as (ps & Hscan & Hsel).
      exists ps. split; [exact Hscan|]. now apply Selected_no_match.
Qed.

(** C4 (as amended): when the log file opens and reads without error,
    every line the pattern matches carries a real calendar date and time
    of day, and the window is given by naive datetimes, the scanner
    returns, in the order of the lines, exactly one record for each
    matching line whose timestamp lies in the inclusive window, with the
    floats of the captured lat, lon and alt texts, and nothing for any
    other line; it logs nothing. *)
Theorem scan_selects_window start_time end_time lines w :
  log_file w = Readable lines None ->
  utcoffset start_time = None -> utcoffset end_time = None ->
  (forall line ts lat lon alt,
      In line lines -> search cot_regex line = Some [ts; lat; lon; alt] ->
      exists t, parse_date ts = inr t) ->
  exists positions,
    parse_log_for_positions float start_time end_time w = (inr positions, w) /\
    Selected float start_time end_time lines positions.
Proof.
  intros Hw Hs He Hvalid.
  destruct (@scan_lines_selected start_time end_time lines Hs He Hvalid [])
    as (ps & Hscan & Hsel).
  exists ps. split; [|exact Hsel].
  rewrite parse_log_for_positions_eq, Hw. unfold scan_file.
  rewrite Hscan. reflexivity.
Qed.


(** *** Properties of the sender *)

Ltac step_send :=
  match goal with
  | |- context [match ?x with _ => _ end] =>
      match x with
      | context [match _ with _ => _ end] => fail 1
      | _ => destruct x eqn:?
      end
  end.

(** Every call returns: [True] exactly when it met no exception, leaving
    the events of its path. *)
Lemma send_cot_to_tak_eq lat lon alt timestamp w :
  send_cot_to_tak xml lat lon alt timestamp w =
  (inr (is_none (send_failure xml (network w (sockets w)) lat lon alt timestamp)),
   after_send (send_events xml (sockets w) (network w (sockets w)) lat lon alt timestamp) w).
Proof.
  destruct w as [f n k tr].
  unfold send_cot_to_tak, send_failure, send_events, reported, try_except, mbind,
    socket_socket, wrap_socket, connect, settimeout, sendall, recv_decode, close,
    socket_op, print, logging_info, logging_error, emit, lift, mret, mbind,
    after_send, record_events, raise.
  cbn [log_file network sockets trace].
  destruct (n k) as [ow oc os orv] eqn:Hsess.
  cbn [on_wrap on_connect on_sendall on_recv].
  repeat (step_send;
          cbn [fst snd log_file network sockets trace];
          rewrite ?Hsess;
          cbn [on_wrap on_connect on_sendall on_recv]);
    rewrite <- ?app_assoc; reflexivity.
Qed.

(** The two clauses of the outer [try]. *)
Lemma failure_report_cases :
  @failure_report F ConnectionRefusedError = SSLConnectionError ConnectionRefusedError /\
  @failure_report F SSLError = SSLConnectionError SSLError /\
  (forall e, e <> ConnectionRefusedError -> e <> SSLError ->
             @failure_report F e = UnexpectedErrorSending e).
Proof.
  repeat split. intros e H1 H2. destruct e; try reflexivity; contradiction.
Qed.

(** Case analysis on the path a call takes. *)
Ltac send_paths :=
  repeat match goal with
    | |- context [on_wrap ?s] => destruct (on_wrap s) eqn:?
    | |- context [on_connect ?s] => destruct (on_connect s) eqn:?
    | |- context [Datetime.add ?t ?d] => destruct (Datetime.add t d) eqn:?
    | |- context [xml ?e] => destruct (xml e) eqn:?
    | |- context [on_sendall ?s] => destruct (on_sendall s) eqn:?
    | |- context [on_recv ?s] => destruct (on_recv s) as [?| |[]] eqn:?
    end.

Lemma add_five_minutes timestamp stale :
  Datetime.add timestamp (timedelta_minutes 5) = inr stale ->
  (instant stale = instant timestamp + 5 * 60 * 1000000)%Z /\
  utcoffset stale = utcoffset timestamp.
Proof.
  unfold Datetime.add. destruct (_ && _); [|discriminate].
  intros H; inversion H; subst. split; reflexivity.
Qed.

(** C3: whatever a call sends is the XML of an event whose [time] and
    [start] are the timestamp handed to the sender and whose [stale] is
    that timestamp plus five minutes, to the microsecond, computed inside
    the call; and a call whose connection, event and send go through does
    send it. *)
Theorem stale_is_start_plus_five_minutes lat lon alt timestamp w :
  exists sent evs,
    send_cot_to_tak xml lat lon alt timestamp w = (inr sent, after_send evs w) /\
    (forall s payload,
        In (SentAll s payload) evs ->
        exists stale,
          Datetime.add timestamp (timedelta_minutes 5) = inr stale /\
          xml (cot_event lat lon alt timestamp stale) = inr payload /\
          CoT.time (cot_event lat lon alt timestamp stale) = timestamp /\
          CoT.start (cot_event lat lon alt timestamp stale) = timestamp /\
          (instant (CoT.stale (cot_event lat lon alt timestamp stale)) =
           instant (CoT.start (cot_event lat lon alt timestamp stale))
           + 5 * 60 * 1000000)%Z) /\
    (forall stale payload,
        on_wrap (network w (sockets w)) = None ->
        on_connect (network w (sockets w)) = None ->
        Datetime.add timestamp (timedelta_minutes 5) = inr stale ->
        xml (cot_event lat lon alt timestamp stale) = inr payload ->
        on_sendall (network w (sockets w)) = None ->
        In (SentAll (sockets w) payload) evs) /\
    ((0 <= instant timestamp)%Z ->
     (instant timestamp + 5 * 60 * 1000000 < MAXORDINAL * usec_per_day)%Z ->
     exists stale, Datetime.add timestamp (timedelta_minutes 5) = inr stale).
Proof.
  rewrite send_cot_to_tak_eq. eexists _, _. split; [reflexivity|].
  split; [|split].
  - intros s payload. unfold send_events, reported.
    send_paths; cbn [In];
      intros H; repeat (destruct H as [H|H]); try discriminate H; try contradiction;
      inversion H; subst;
      match goal with
      | Hadd : Datetime.add _ _ = inr ?d |- _ =>
          exists d; destruct (add_five_minutes _ Hadd) as [Hi _];
          repeat split; auto
      end.
  - intros stale payload Hw Hc Ha Hx Hs. unfold send_events.
    rewrite Hw, Hc, Ha, Hx, Hs. cbn [In]. do 4 right. left. reflexivity.
  - intros Hlo Hhi. unfold Datetime.add.
    replace (timedelta_minutes 5) with (5 * 60 * 1000000)%Z by reflexivity.
    destruct (_ && _) eqn:E; [eauto|].
    apply andb_false_iff in E as [E|E]; [apply Z.leb_gt in E|apply Z.ltb_ge in E]; lia.
Qed.

(** The outcomes of a call, for the exceptions of the model.  It returns
    [True] exactly when wrapping, connecting with its handshake, building
    the event and sending raise nothing and the response read either
    yields bytes that decode or times out (then "No response" is logged).
    It returns [False] on any exception, the response read's included: a
    refused connection or an SSL error is reported as an SSL connection
    error, any other exception as an unexpected error. *)
Theorem send_true_iff_no_exception lat lon alt timestamp w :
  exists sent evs,
    send_cot_to_tak xml lat lon alt timestamp w = (inr sent, after_send evs w) /\
    (sent = true <->
     send_failure xml (network w (sockets w)) lat lon alt timestamp = None) /\
    (send_failure xml (network w (sockets w)) lat lon alt timestamp = None <->
     on_wrap (network w (sockets w)) = None /\
     on_connect (network w (sockets w)) = None /\
     (exists stale payload,
         Datetime.add timestamp (timedelta_minutes 5) = inr stale /\
         xml (cot_event lat lon alt timestamp stale) = inr payload) /\
     on_sendall (network w (sockets w)) = None /\
     ((exists response, on_recv (network w (sockets w)) = Reply response) \/
      on_recv (network w (sockets w)) = RecvRaises SocketTimeout)) /\
    (sent = true ->
     on_recv (network w (sockets w)) = RecvRaises SocketTimeout ->
     In (LoggedInfo SentNoResponse) evs) /\
    (forall e,
        send_failure xml (network w (sockets w)) lat lon alt timestamp = Some e ->
        sent = false /\
        exists before,
          evs = before ++ [Printed (failure_report e); LoggedError (failure_report e)]) /\
    @failure_report F ConnectionRefusedError = SSLConnectionError ConnectionRefusedError /\
    @failure_report F SSLError = SSLConnectionError SSLError /\
    (forall e, e <> ConnectionRefusedError -> e <> SSLError ->
               @failure_report F e = UnexpectedErrorSending e).
Proof.
  rewrite send_cot_to_tak_eq. eexists _, _. split; [reflexivity|].
  split; [|split; [|split; [|split; [|apply failure_report_cases]]]].
  - destruct (send_failure xml _ _ _ _ _); cbn [is_none]; split; congruence.
  - unfold send_failure. send_paths; split;
      try discriminate;
      try (intros (Hw & Hc & (stale & payload & Ha & Hx) & Hs & [[r Hr]|Hr]);
           congruence);
      intros _; repeat split; eauto.
  - intros Hsent Hrecv. unfold send_events.
    destruct (send_failure xml _ _ _ _ _) eqn:Hf; [discriminate|].
    unfold send_failure in Hf. rewrite Hrecv in *.
    send_paths; try discriminate Hf.
    cbn [In]. do 8 right. left. reflexivity.
  - intros e Hf. split; [now rewrite Hf|].
    unfold send_failure in Hf. unfold send_events, reported.
    send_paths; try discriminate Hf; inversion Hf; subst;
      match goal with
      | |- exists before, ?l = _ =>
          let n := eval cbv in (List.length l - 2)%nat in
          exists (firstn n l); reflexivity
      end.
Qed.

(** C6, where the code departs from it: wrapping, the connection with its
    handshake, building the event and the send all complete without
    exception, and the response read fails otherwise than by its timeout:
    the bytes received are not UTF-8, or the read raises an exception that
    is not [socket.timeout].  The inner [try] of lines 112-116 catches the
    timeout only, so the call returns [False] although the event was sent
    and the position logged, reports the error of the read through one of
    the outer clauses, and does not reach [close]. *)
Theorem failed_response_read_fails_the_send
    lat lon alt timestamp stale payload e (w : world F) :
  on_wrap (network w (sockets w)) = None ->
  on_connect (network w (sockets w)) = None ->
  Datetime.add timestamp (timedelta_minutes 5) = inr stale ->
  xml (cot_event lat lon alt timestamp stale) = inr payload ->
  on_sendall (network w (sockets w)) = None ->
  (on_recv (network w (sockets w)) = Undecodable /\ e = UnicodeDecodeError) \/
  (on_recv (network w (sockets w)) = RecvRaises e /\ e <> SocketTimeout) ->
  exists received,
    send_cot_to_tak xml lat lon alt timestamp w =
    (inr false,
     after_send
       ([Created (sockets w); Wrapped (sockets w); Connected (sockets w);
         TimeoutSet (sockets w) 1; SentAll (sockets w) payload;
         Printed (PositionMessage lat lon alt timestamp);
         LoggedInfo (PositionMessage lat lon alt timestamp)]
        ++ received
        ++ [Printed (failure_report e); LoggedError (failure_report e)])
       w) /\
    (received = [] \/ received = [Received (sockets w)]).
Proof.
  intros Hw Hc Ha Hx Hs Hr. rewrite send_cot_to_tak_eq.
  unfold send_failure, send_events, reported. rewrite Hw, Hc, Ha, Hx, Hs.
  destruct Hr as [[-> ->]|[-> Hne]].
  - exists [Received (sockets w)]. split; [reflexivity|now right].
  - exists []. split; [|now left].
    destruct e; try reflexivity. contradiction.
Qed.

(** C1 (what the code does): the call closes its socket on the path
    that returns [True] only; on every path that returns [False] the
    socket it created is still open when the call returns. *)
Theorem failed_send_leaves_socket_open lat lon alt timestamp w :
  exists sent evs,
    send_cot_to_tak xml lat lon alt timestamp w = (inr sent, after_send evs w) /\
    open_sockets evs [] = if sent then [] else [sockets w].
Proof.
  rewrite send_cot_to_tak_eq. eexists _, _. split; [reflexivity|].
  unfold send_failure, send_events, reported.
  send_paths; cbn [is_none open_sockets app remove];
    try reflexivity;
    destruct (Nat.eq_dec (sockets w) (sockets w)); try reflexivity; contradiction.
Qed.

(** *** Properties of the replay xml loop *)

Lemma count_app kind (evs1 evs2 : list (event F)) :
  count kind (evs1 ++ evs2) = (count kind evs1 + count kind evs2)%nat.
Proof. unfold count. now rewrite filter_app, length_app. Qed.

(** One call creates one socket, closes one exactly when it succeeds, and
    neither sleeps nor gives up on the position. *)
Lemma send_events_counts s sess lat lon alt timestamp :
  count is_created (send_events xml s sess lat lon alt timestamp) = 1%nat /\
  count is_closed (send_events xml s sess lat lon alt timestamp) =
    (if is_none (send_failure xml sess lat lon alt timestamp) then 1 else 0)%nat /\
  count is_slept (send_events xml s sess lat lon alt timestamp) = 0%nat /\
  count is_failed_to_send (send_events xml s sess lat lon alt timestamp) = 0%nat.
Proof.
  unfold send_events, send_failure, reported.
  send_paths; repeat split; try reflexivity;
    unfold count, failure_report; cbn [filter is_failed_to_send];
    match goal with
    | |- context [match ?e with _ => _ end] => destruct e; reflexivity
    end.
Qed.

(** One turn of the loop, by the outcome of the send. *)
Lemma replay_cons timestamp lat lon alt rest w sent w1 :
  send_cot_to_tak xml lat lon alt timestamp w = (inr sent, w1) ->
  replay xml ((timestamp, lat, lon, alt) :: rest) w =
  replay xml rest
    (record_events
       (if sent then [Slept 10]
        else [Printed FailedToSend; LoggedError FailedToSend]) w1).
Proof.
  intros H. cbn [replay]. unfold mbind at 1. rewrite H.
  destruct sent; unfold mbind, time_sleep, print, logging_error, emit;
    rewrite ?record_events_app; reflexivity.
Qed.

Lemma replay_run positions : forall w,
  exists evs,
    replay xml positions w =
    (inr tt,
     {| log_file := log_file w; network := network w;
        sockets := sockets w + List.length positions;
        trace := trace w ++ evs |}) /\
    count is_created evs = List.length positions /\
    count is_slept evs = count is_closed evs /\
    (count is_failed_to_send evs + count is_closed evs)%nat = List.length positions.
Proof.
  induction positions as [|[[[timestamp lat] lon] alt] rest IH]; intros w.
  - exists []. cbn [replay List.length]. unfold mret.
    rewrite Nat.add_0_r, app_nil_r. destruct w; repeat split; reflexivity.
  - pose proof (send_cot_to_tak_eq lat lon alt timestamp w) as Hsend.
    pose proof (@replay_cons timestamp lat lon alt rest w _ _ Hsend) as Hstep.
    destruct (send_events_counts (sockets w) (network w (sockets w))
                lat lon alt timestamp) as (Hcr & Hcl & Hsl & Hfa).
    match type of Hstep with
    | _ = replay xml rest ?w1 => destruct (IH w1) as (evs & Hrun & Hc1 & Hc2 & Hc3)
    end.
    eexists. split.
    + refine (eq_trans Hstep _). rewrite Hrun. unfold record_events, after_send.
      cbn [log_file network sockets trace List.length].
      rewrite <- !app_assoc.
      replace (S (sockets w) + List.length rest)%nat
        with (sockets w + S (List.length rest))%nat by lia.
      reflexivity.
    + rewrite !count_app, Hcr, Hcl, Hsl, Hfa, Hc1.
      destruct (is_none _); cbn [List.length]; repeat split; cbn; lia.
Qed.

(** C7: the loop takes the records one at a time from the head of the
    list.  Each turn calls the sender once; after a send that succeeded it
    sleeps 10 seconds and goes on with the rest, after one that failed it
    does not sleep (it prints and logs the failure) and goes on with the
    rest.  It ends only when the list is exhausted: every record gets its
    own socket, whatever the outcomes, and there are as many sleeps as
    successful sends. *)
Theorem replay_paces_and_continues :
  (forall timestamp lat lon alt rest w,
      exists sent w1,
        send_cot_to_tak xml lat lon alt timestamp w = (inr sent, w1) /\
        replay xml ((timestamp, lat, lon, alt) :: rest) w =
        replay xml rest
          (record_events
             (if sent then [Slept 10]
              else [Printed FailedToSend; LoggedError FailedToSend]) w1)) /\
  (forall w, replay xml [] w = (inr tt, w)) /\
  (forall positions w,
      exists evs,
        replay xml positions w =
        (inr tt,
         {| log_file := log_file w; network := network w;
            sockets := sockets w + List.length positions;
            trace := trace w ++ evs |}) /\
        count is_created evs = List.length positions /\
        count is_slept evs = count is_closed evs /\
        (count is_failed_to_send evs + count is_closed evs)%nat
          = List.length positions).
Proof.
  split; [|split].
  - intros timestamp lat lon alt rest w.
    eexists _, _. split; [apply send_cot_to_tak_eq|].
    apply replay_cons, send_cot_to_tak_eq.
  - reflexivity.
  - intros positions w. apply replay_run.
Qed.

(** *** Properties of main *)

(** X2: a start that is not before the end stops the run before the log is
    read and before any socket is created. *)
Theorem window_checked_before_scanning start_time end_time (w : world F) :
  Datetime.ge start_time end_time = inr true ->
  main float xml (inr start_time) (inr end_time) w =
  (inr tt,
   record_events
     [Printed EnterTimeRange; Printed StartMustBeBeforeEnd;
      LoggedError StartIsNotBeforeEnd] w).
Proof.
  intros H. unfold main, try_except, mbind, lift, print, logging_error, emit.
  rewrite H. rewrite !record_events_app. reflexivity.
Qed.

(** X3: a scan that finds nothing ends the run: no socket is created, nothing
    is sent. *)
Theorem empty_scan_sends_nothing start_time end_time (w : world F) :
  Datetime.ge start_time end_time = inr false ->
  fst (parse_log_for_positions float start_time end_time
         (record_events [Printed EnterTimeRange] w)) = inr [] ->
  main float xml (inr start_time) (inr end_time) w =
  (inr tt,
   record_events [Printed NoPositionsInLog; LoggedInfo NoPositionsForRange]
     (snd (parse_log_for_positions float start_time end_time
             (record_events [Printed EnterTimeRange] w)))).
Proof.
  intros Hge Hscan.
  unfold main, try_except, mbind, lift, print, logging_info, emit.
  rewrite Hge.
  destruct (parse_log_for_positions float start_time end_time
              (record_events [Printed EnterTimeRange] w)) as [r w1].
  cbn [fst snd] in *. subst r.
  rewrite !record_events_app. reflexivity.
Qed.

(** *** More on the scanner *)

(** The list built so far is only ever extended at its end. *)
Lemma scan_lines_acc start_time end_time lines : forall positions,
  scan_lines float start_time end_time lines positions =
  bind (scan_lines float start_time end_time lines [])
       (fun found => ret (positions ++ found)).
Proof.
  induction lines as [|line lines IH]; intros positions.
  - cbn. now rewrite app_nil_r.
  - rewrite !scan_lines_cons.
    destruct (search cot_regex line) as [[|ts [|lat [|lon [|alt [|x g]]]]]|];
      try reflexivity; [|apply IH].
    destruct (parse_date ts) as [e|t]; cbn [bind]; [reflexivity|].
    destruct (between start_time t end_time) as [e|[|]]; cbn [bind];
      [reflexivity| |apply IH].
    rewrite (IH (positions ++ _)), (IH ([] ++ _)).
    destruct (scan_lines float start_time end_time lines []) as [e|found];
      cbn [bind ret]; [reflexivity|].
    now rewrite <- app_assoc.
Qed.

Lemma scan_lines_in_window start_time end_time lines : forall found,
  scan_lines float start_time end_time lines [] = inr found ->
  Forall (fun p => between start_time (position_time p) end_time = inr true /\
                   utcoffset (position_time p) = None) found /\
  (List.length found <= List.length lines)%nat.
Proof.
  induction lines as [|line lines IH]; intros found.
  - cbn. intros H; inversion H; subst. split; [constructor|reflexivity].
  - rewrite scan_lines_cons.
    destruct (search cot_regex line) as [[|ts [|lat [|lon [|alt [|x g]]]]]|];
      try discriminate.
    + destruct (parse_date ts) as [e|t] eqn:Ht; cbn [bind]; [discriminate|].
      destruct (between start_time t end_time) as [e|[|]] eqn:Hb; cbn [bind];
        [discriminate| |].
      * rewrite scan_lines_acc.
        destruct (scan_lines float start_time end_time lines []) as [e|rest];
          cbn [bind ret]; [discriminate|].
        intros H; inversion H; subst.
        destruct (IH rest eq_refl) as [Hall Hlen].
        split; [|cbn [List.length app]; lia].
        constructor; [|exact Hall].
        cbn [position_time fst]. split; [exact Hb|].
        exact (DatetimeFacts.parse_date_naive _ Ht).
      * intros H. destruct (IH found H) as [Hall Hlen].
        split; [exact Hall|cbn [List.length]; lia].
    + intros H. destruct (IH found H) as [Hall Hlen].
      split; [exact Hall|cbn [List.length]; lia].
Qed.

(** The scan's result, whatever happened. *)
Lemma parse_log_for_positions_fst start_time end_time w :
  fst (parse_log_for_positions float start_time end_time w) =
  inr match scan_file float (log_file w) start_time end_time with
      | inr positions => positions
      | inl _ => []
      end.
Proof.
  rewrite parse_log_for_positions_eq.
  destruct (scan_file float (log_file w) start_time end_time) as [[]|positions];
    reflexivity.
Qed.

Lemma scan_file_in_window file start_time end_time found :
  scan_file float file start_time end_time = inr found ->
  Forall (fun p => between start_time (position_time p) end_time = inr true /\
                   utcoffset (position_time p) = None) found /\
  (forall lines broken, file = Readable lines broken ->
                        (List.length found <= List.length lines)%nat).
Proof.
  destruct file as [e|lines broken]; cbn [scan_file]; [discriminate|].
  destruct (scan_lines float start_time end_time lines []) as [e|ps] eqn:Hs;
    cbn [bind]; [discriminate|].
  destruct broken; [discriminate|].
  intros H; inversion H; subst.
  destruct (scan_lines_in_window _ _ _ Hs) as [Hall Hlen].
  split; [exact Hall|].
  intros lines' broken' E; inversion E; subst. exact Hlen.
Qed.

(** X4: every record the scanner returns, for any file and any window,
    has a naive timestamp for which [start_time <= timestamp <= end_time]
    evaluated to [True], and there is at most one record per line of the
    file. *)
Theorem scanned_positions_in_window start_time end_time w :
  exists found w',
    parse_log_for_positions float start_time end_time w = (inr found, w') /\
    Forall (fun p => between start_time (position_time p) end_time = inr true /\
                     utcoffset (position_time p) = None) found /\
    (forall lines broken,
        log_file w = Readable lines broken ->
        (List.length found <= List.length lines)%nat).
Proof.
  rewrite parse_log_for_positions_eq.
  destruct (scan_file float (log_file w) start_time end_time) as [e|found] eqn:Hs.
  - destruct e; eexists _, _; (split; [reflexivity|]);
      (split; [constructor|intros; cbn; lia]).
  - eexists _, _. split; [reflexivity|].
    exact (scan_file_in_window _ _ _ Hs).
Qed.

(** X5: scanning the lines of two logs one after the other gives the
    records of the first followed by the records of the second, and fails
    when either scan fails. *)
Theorem scan_of_concatenation start_time end_time l1 l2 :
  scan_file float (Readable (l1 ++ l2) None) start_time end_time =
  bind (scan_file float (Readable l1 None) start_time end_time) (fun p1 =>
  bind (scan_file float (Readable l2 None) start_time end_time) (fun p2 =>
  ret (p1 ++ p2))).
Proof.
  cbn [scan_file]. rewrite scan_lines_app.
  destruct (scan_lines float start_time end_time l1 []) as [e|p1];
    cbn [bind ret]; [reflexivity|].
  rewrite scan_lines_acc.
  destruct (scan_lines float start_time end_time l2 []) as [e|p2];
    reflexivity.
Qed.

Lemma scan_lines_narrower start_time end_time wide_start wide_end lines :
  utcoffset start_time = None -> utcoffset end_time = None ->
  utcoffset wide_start = None -> utcoffset wide_end = None ->
  (instant wide_start <= instant start_time)%Z ->
  (instant end_time <= instant wide_end)%Z ->
  scan_lines float start_time end_time lines [] =
  match scan_lines float wide_start wide_end lines [] with
  | inl e => inl e
  | inr found => inr (filter (in_window start_time end_time) found)
  end.
Proof.
  intros Hs He Hws Hwe Hlo Hhi.
  induction lines as [|line lines IH]; [reflexivity|].
  rewrite !scan_lines_cons.
  destruct (search cot_regex line) as [[|ts [|lat [|lon [|alt [|x g]]]]]|];
    try reflexivity; [|exact IH].
  destruct (parse_date ts) as [e|t] eqn:Ht; cbn [bind]; [reflexivity|].
  pose proof (DatetimeFacts.parse_date_naive _ Ht) as Hn.
  rewrite !DatetimeFacts.between_naive by assumption. cbn [bind].
  rewrite (scan_lines_acc start_time end_time lines ([] ++ [_])).
  rewrite (scan_lines_acc wide_start wide_end lines ([] ++ [_])).
  rewrite IH. cbn [app].
  assert (Hw : in_window start_time end_time (t, float lat, float lon, float alt) =
               (instant start_time <=? instant t)%Z && (instant t <=? instant end_time)%Z)
    by reflexivity.
  destruct ((instant start_time <=? instant t)%Z && (instant t <=? instant end_time)%Z)
    eqn:Hin.
  - replace ((instant wide_start <=? instant t)%Z && (instant t <=? instant wide_end)%Z)
      with true
      by (symmetry; apply andb_true_iff in Hin as [H1 H2];
          apply Z.leb_le in H1, H2; apply andb_true_iff;
          split; apply Z.leb_le; lia).
    destruct (scan_lines float wide_start wide_end lines []) as [e|found];
      cbn [bind ret app filter]; [reflexivity|].
    now rewrite Hw.
  - destruct ((instant wide_start <=? instant t)%Z && (instant t <=? instant wide_end)%Z).
    + destruct (scan_lines float wide_start wide_end lines []) as [e|found];
        cbn [bind ret app filter]; [reflexivity|].
      now rewrite Hw.
    + reflexivity.
Qed.

(** X6: for windows of naive datetimes, the scan of a window is the scan
    of any wider window, filtered by the narrower one. *)
Theorem narrower_window_filters start_time end_time wide_start wide_end w :
  utcoffset start_time = None -> utcoffset end_time = None ->
  utcoffset wide_start = None -> utcoffset wide_end = None ->
  (instant wide_start <= instant start_time)%Z ->
  (instant end_time <= instant wide_end)%Z ->
  exists found,
    fst (parse_log_for_positions float wide_start wide_end w) = inr found /\
    fst (parse_log_for_positions float start_time end_time w) =
    inr (filter (in_window start_time end_time) found).
Proof.
  intros Hs He Hws Hwe Hlo Hhi.
  rewrite !parse_log_for_positions_fst.
  eexists. split; [reflexivity|]. f_equal.
  destruct (log_file w) as [e|lines broken]; cbn [scan_file raise]; [reflexivity|].
  rewrite (@scan_lines_narrower start_time end_time wide_start wide_end lines
             Hs He Hws Hwe Hlo Hhi).
  destruct (scan_lines float wide_start wide_end lines []) as [e|found];
    cbn [bind]; [reflexivity|].
  destruct broken; reflexivity.
Qed.

(** X7: a window of naive datetimes whose end is before its start holds
    no record, whatever the file. *)
Theorem inverted_window_finds_nothing start_time end_time w :
  utcoffset start_time = None -> utcoffset end_time = None ->
  (instant end_time < instant start_time)%Z ->
  fst (parse_log_for_positions float start_time end_time w) = inr [].
Proof.
  intros Hs He Hlt. rewrite parse_log_for_positions_fst. f_equal.
  destruct (scan_file float (log_file w) start_time end_time) as [e|found] eqn:Hscan;
    [reflexivity|].
  destruct (scan_file_in_window _ _ _ Hscan) as [Hall _].
  destruct found as [|p found]; [reflexivity|].
  inversion Hall as [|? ? [Hb Hn] _]; subst.
  rewrite DatetimeFacts.between_naive in Hb by assumption.
  inversion Hb as [Hb']. apply andb_true_iff in Hb' as [H1 H2].
  apply Z.leb_le in H1, H2. lia.
Qed.

(** X8: a file that reads without error and has no line with a position
    entry in it (an empty file, too) gives the empty list and leaves
    nothing in the log. *)
Theorem unmatched_lines_leave_no_trace start_time end_time lines w :
  log_file w = Readable lines None ->
  (forall line, In line lines -> search cot_regex line = None) ->
  parse_log_for_positions float start_time end_time w = (inr [], w).
Proof.
  intros Hw Hnone. rewrite parse_log_for_positions_eq, Hw. cbn [scan_file].
  assert (E : forall ls,
             (forall line, In line ls -> search cot_regex line = None) ->
             scan_lines float start_time end_time ls [] = inr []).
  { induction ls as [|line ls IH]; intros Hls; [reflexivity|].
    rewrite scan_lines_cons, (Hls line (or_introl eq_refl)).
    apply IH. intros l Hl. apply Hls. now right. }
  rewrite (E lines Hnone). reflexivity.
Qed.

(** X9: every match of a line has four groups, the first a timestamp of
    23 characters, and in the line that timestamp is directly followed by
    the text [ - INFO - CoT for ]. *)
Theorem match_is_info_entry line g :
  search cot_regex line = Some g ->
  exists before ts lat lon alt rest,
    g = [ts; lat; lon; alt] /\
    List.length ts = 23%nat /\
    line = before ++ ts ++ txt " - INFO - CoT for " ++ rest.
Proof.
  intros H. apply Pattern.search_cot_regex_groups in H
    as (before & entry & after & ts & lat & lon & alt & -> & -> & name & -> & Hts & _).
  exists before, ts, lat, lon, alt.
  eexists. split; [reflexivity|]. split.
  - destruct Hts as (Y & M & D & h & m & s & ms & -> &
                     [HY _] & [HM _] & [HD _] & [Hh _] & [Hm _] & [Hs _] & [Hms _]).
    rewrite !length_app, HY, HM, HD, Hh, Hm, Hs, Hms. reflexivity.
  - unfold position_entry. rewrite <- !app_assoc. reflexivity.
Qed.

(** *** More on the sender *)

(** X10: a position is logged by the sender exactly when its event was
    written to the socket: in the events of a call there are as many
    position entries logged as events written, at most one, and one when
    the call returns [True]. *)
Theorem position_logged_iff_sent lat lon alt timestamp w :
  exists sent evs,
    send_cot_to_tak xml lat lon alt timestamp w = (inr sent, after_send evs w) /\
    count is_position_logged evs = count is_written evs /\
    (count is_written evs <= 1)%nat /\
    (sent = true -> count is_written evs = 1%nat).
Proof.
  rewrite send_cot_to_tak_eq. eexists _, _. split; [reflexivity|].
  unfold send_events, send_failure, reported, count.
  send_paths; cbn [filter is_position_logged is_written List.length is_none];
    repeat split; try lia; discriminate.
Qed.

(** X11: what the server answers does not change the outcome, as long as
    the answer decodes or the read times out: two calls that meet the same
    outcomes of wrapping, connecting and sending return the same. *)
Theorem decodable_response_never_matters lat lon alt timestamp w1 w2 :
  on_wrap (network w1 (sockets w1)) = on_wrap (network w2 (sockets w2)) ->
  on_connect (network w1 (sockets w1)) = on_connect (network w2 (sockets w2)) ->
  on_sendall (network w1 (sockets w1)) = on_sendall (network w2 (sockets w2)) ->
  ((exists r, on_recv (network w1 (sockets w1)) = Reply r) \/
   on_recv (network w1 (sockets w1)) = RecvRaises SocketTimeout) ->
  ((exists r, on_recv (network w2 (sockets w2)) = Reply r) \/
   on_recv (network w2 (sockets w2)) = RecvRaises SocketTimeout) ->
  fst (send_cot_to_tak xml lat lon alt timestamp w1) =
  fst (send_cot_to_tak xml lat lon alt timestamp w2).
Proof.
  intros Hw Hc Hs H1 H2. rewrite !send_cot_to_tak_eq. cbn [fst].
  do 2 f_equal. unfold send_failure. rewrite Hw, Hc, Hs.
  destruct (on_wrap (network w2 (sockets w2))); [reflexivity|].
  destruct (on_connect (network w2 (sockets w2))); [reflexivity|].
  destruct (Datetime.add timestamp (timedelta_minutes 5)); [reflexivity|].
  destruct (xml _); [reflexivity|].
  destruct (on_sendall (network w2 (sockets w2))); [reflexivity|].
  destruct H1 as [[r1 E1]|E1], H2 as [[r2 E2]|E2]; rewrite E1, E2; reflexivity.
Qed.

(** X12: a timestamp in the last five minutes of the year 9999 cannot be
    sent: the call connects, fails on the stale time with an
    [OverflowError] reported as an unexpected error, sends nothing and
    returns [False]. *)
Theorem stale_overflow_fails_after_connecting lat lon alt timestamp w :
  on_wrap (network w (sockets w)) = None ->
  on_connect (network w (sockets w)) = None ->
  (MAXORDINAL * usec_per_day <= instant timestamp + 5 * 60 * 1000000)%Z ->
  send_cot_to_tak xml lat lon alt timestamp w =
  (inr false,
   after_send
     [Created (sockets w); Wrapped (sockets w); Connected (sockets w);
      TimeoutSet (sockets w) 1;
      Printed (UnexpectedErrorSending OverflowError);
      LoggedError (UnexpectedErrorSending OverflowError)] w).
Proof.
  intros Hw Hc Hover. rewrite send_cot_to_tak_eq.
  unfold send_failure, send_events. rewrite Hw, Hc.
  assert (E : Datetime.add timestamp (timedelta_minutes 5) = inl OverflowError).
  { unfold Datetime.add.
    replace (timedelta_minutes 5) with (5 * 60 * 1000000)%Z by reflexivity.
    replace (_ <? _)%Z with false by (symmetry; apply Z.ltb_ge; exact Hover).
    now rewrite andb_false_r. }
  rewrite E. reflexivity.
Qed.

(** *** More on the replay loop *)

(** The loop always runs to its end, leaving the events of its records. *)
Lemma replay_eq positions : forall w,
  replay xml positions w =
  (inr tt,
   {| log_file := log_file w; network := network w;
      sockets := sockets w + List.length positions;
      trace := trace w ++ replay_events xml (network w) (sockets w) positions |}).
Proof.
  induction positions as [|[[[timestamp lat] lon] alt] rest IH]; intros w.
  - cbn [replay replay_events List.length]. unfold mret.
    rewrite Nat.add_0_r, app_nil_r. destruct w; reflexivity.
  - pose proof (send_cot_to_tak_eq lat lon alt timestamp w) as Hsend.
    refine (eq_trans (@replay_cons timestamp lat lon alt rest w _ _ Hsend) _).
    rewrite IH. unfold record_events, after_send.
    cbn [log_file network sockets trace List.length replay_events].
    rewrite <- !app_assoc.
    replace (S (sockets w) + List.length rest)%nat
      with (sockets w + S (List.length rest))%nat by lia.
    destruct (is_none _); reflexivity.
Qed.

Lemma replay_events_app net l1 : forall n l2,
  replay_events xml net n (l1 ++ l2) =
  replay_events xml net n l1 ++ replay_events xml net (n + List.length l1) l2.
Proof.
  induction l1 as [|[[[timestamp lat] lon] alt] l1 IH]; intros n l2.
  - cbn. now rewrite Nat.add_0_r.
  - cbn [app replay_events List.length]. rewrite IH, <- !app_assoc.
    replace (S n + List.length l1)%nat with (n + S (List.length l1))%nat by lia.
    reflexivity.
Qed.

(** X13: replaying a list made of two parts is replaying the first part
    and then, in the world it leaves, the second. *)
Theorem replay_of_concatenation l1 l2 w :
  replay xml (l1 ++ l2) w = replay xml l2 (snd (replay xml l1 w)).
Proof.
  rewrite !replay_eq. cbn [snd log_file network sockets trace].
  rewrite replay_events_app, length_app, <- app_assoc, Nat.add_assoc.
  reflexivity.
Qed.

Lemma send_events_payload k sess lat lon alt timestamp s payload :
  In (SentAll s payload) (send_events xml k sess lat lon alt timestamp) ->
  s = k /\
  exists stale,
    Datetime.add timestamp (timedelta_minutes 5) = inr stale /\
    xml (cot_event lat lon alt timestamp stale) = inr payload.
Proof.
  unfold send_events, reported.
  send_paths; cbn [In];
    intros H; repeat (destruct H as [H|H]); try discriminate H; try contradiction;
    inversion H; subst; split; eauto.
Qed.

Lemma replay_events_payload net positions : forall n s payload,
  In (SentAll s payload) (replay_events xml net n positions) ->
  exists k timestamp lat lon alt stale,
    s = (n + k)%nat /\
    nth_error positions k = Some (timestamp, lat, lon, alt) /\
    Datetime.add timestamp (timedelta_minutes 5) = inr stale /\
    xml (cot_event lat lon alt timestamp stale) = inr payload.
Proof.
  induction positions as [|[[[timestamp lat] lon] alt] rest IH]; intros n s payload.
  - intros [].
  - cbn [replay_events]. rewrite !in_app_iff. intros [H|[H|H]].
    + apply send_events_payload in H as (-> & stale & Ha & Hx).
      exists 0%nat, timestamp, lat, lon, alt, stale.
      rewrite Nat.add_0_r. auto.
    + destruct (is_none _); cbn [In] in H;
        repeat (destruct H as [H|H]; try discriminate H); contradiction.
    + apply IH in H as (k & ts & la & lo & al & stale & -> & Hn & Ha & Hx).
      exists (S k), ts, la, lo, al, stale. split; [lia|]. auto.
Qed.

(** X14: the loop sends the records in the order of the list, each on a
    socket of its own: what is written to the [k]-th socket created by the
    loop is the XML of the event of the [k]-th record, stale five minutes
    after its timestamp. *)
Theorem replay_sends_in_order positions w :
  exists evs w',
    replay xml positions w = (inr tt, w') /\
    trace w' = trace w ++ evs /\
    forall s payload,
      In (SentAll s payload) evs ->
      exists k timestamp lat lon alt stale,
        s = (sockets w + k)%nat /\
        nth_error positions k = Some (timestamp, lat, lon, alt) /\
        Datetime.add timestamp (timedelta_minutes 5) = inr stale /\
        xml (cot_event lat lon alt timestamp stale) = inr payload.
Proof.
  rewrite replay_eq. eexists _, _. split; [reflexivity|].
  split; [reflexivity|]. apply replay_events_payload.
Qed.

Lemma follows_app s (tr1 : list (event F)) : forall ph tr2,
  follows s ph (tr1 ++ tr2) =
  match follows s ph tr1 with
  | Some ph' => follows s ph' tr2
  | None => None
  end.
Proof.
  induction tr1 as [|ev tr1 IH]; intros ph tr2; [reflexivity|].
  cbn [app follows].
  destruct (socket_use ev) as [[s' op]|]; [|apply IH].
  destruct (Nat.eqb s' s); [|apply IH].
  destruct (next_phase ph op); [apply IH|reflexivity].
Qed.

(** A call keeps the order of operations on its own socket... *)
Lemma send_events_follows_own k sess lat lon alt timestamp :
  exists ph,
    follows k Fresh (send_events xml k sess lat lon alt timestamp) = Some ph /\
    (is_none (send_failure xml sess lat lon alt timestamp) = true <-> ph = Shut).
Proof.
  unfold send_events, send_failure, reported.
  send_paths; cbn [follows socket_use next_phase];
    repeat (rewrite Nat.eqb_refl; cbn [follows socket_use next_phase]);
    eexists; (split; [reflexivity|]); cbn [is_none]; split; congruence.
Qed.

(** ... and touches no other socket. *)
Lemma send_events_follows_other k sess lat lon alt timestamp s ph :
  s <> k ->
  follows s ph (send_events xml k sess lat lon alt timestamp) = Some ph.
Proof.
  intros Hne. assert (E : Nat.eqb k s = false) by (apply Nat.eqb_neq; congruence).
  unfold send_events, reported.
  send_paths; cbn [follows socket_use next_phase];
    repeat (rewrite E; cbn [follows socket_use next_phase]); reflexivity.
Qed.

Lemma follows_pace s ph (sent : bool) :
  follows s ph (if sent then [Slept REFRESH_INTERVAL]
                else [@Printed F FailedToSend; LoggedError FailedToSend])
  = Some ph.
Proof. destruct sent; reflexivity. Qed.

Lemma replay_events_follows_outside net positions : forall n s ph,
  (s < n \/ n + List.length positions <= s)%nat ->
  follows s ph (replay_events xml net n positions) = Some ph.
Proof.
  induction positions as [|[[[timestamp lat] lon] alt] rest IH]; intros n s ph Hs.
  - reflexivity.
  - cbn [replay_events List.length] in *. rewrite follows_app.
    rewrite send_events_follows_other by lia.
    rewrite follows_app, follows_pace.
    apply IH. lia.
Qed.

Lemma replay_events_follows net positions : forall n s,
  exists ph, follows s Fresh (replay_events xml net n positions) = Some ph.
Proof.
  induction positions as [|[[[timestamp lat] lon] alt] rest IH]; intros n s.
  - exists Fresh. reflexivity.
  - cbn [replay_events]. rewrite follows_app.
    destruct (Nat.eq_dec s n) as [->|Hne].
    + destruct (send_events_follows_own n (net n) lat lon alt timestamp)
        as (ph & Hph & _).
      rewrite Hph, follows_app, follows_pace.
      exists ph. apply replay_events_follows_outside. lia.
    + rewrite send_events_follows_other by exact Hne.
      rewrite follows_app, follows_pace.
      apply IH.
Qed.

(** X15: through a whole loop every socket is used in the sender's order
    (created, wrapped, connected, timeout set, written to, read from,
    closed) and never again after that; sockets other than the ones the
    loop creates are not touched at all. *)
Theorem replay_uses_sockets_in_order positions w s :
  exists evs w' ph,
    replay xml positions w = (inr tt, w') /\
    trace w' = trace w ++ evs /\
    follows s Fresh evs = Some ph /\
    ((s < sockets w \/ sockets w + List.length positions <= s)%nat ->
     ph = Fresh).
Proof.
  rewrite replay_eq.
  destruct (replay_events_follows (network w) positions (sockets w) s) as [ph Hph].
  eexists _, _, ph. split; [reflexivity|]. split; [reflexivity|].
  split; [exact Hph|].
  intros Hout.
  rewrite (replay_events_follows_outside (network w) positions Fresh Hout) in Hph.
  congruence.
Qed.

(** *** More on main *)

(** [main], branch by branch. *)
Lemma main_cases start_input end_input (w : world F) :
  main float xml start_input end_input w =
  match start_input with
  | inl e => (inr tt, record_events (Printed EnterTimeRange :: main_report e) w)
  | inr start_time =>
  match end_input with
  | inl e => (inr tt, record_events (Printed EnterTimeRange :: main_report e) w)
  | inr end_time =>
  match Datetime.ge start_time end_time with
  | inl e => (inr tt, record_events (Printed EnterTimeRange :: main_report e) w)
  | inr true =>
      (inr tt,
       record_events
         [Printed EnterTimeRange; Printed StartMustBeBeforeEnd;
          LoggedError StartIsNotBeforeEnd] w)
  | inr false =>
      match parse_log_for_positions float start_time end_time
              (record_events [Printed EnterTimeRange] w) with
      | (inl e, w1) => (inr tt, record_events (main_report e) w1)
      | (inr [], w1) =>
          (inr tt,
           record_events
             [Printed NoPositionsInLog; LoggedInfo NoPositionsForRange] w1)
      | (inr found, w1) =>
          replay xml found
            (record_events
               [Printed (FoundPositions (List.length found));
                LoggedInfo (FoundPositions (List.length found))] w1)
      end
  end end end.
Proof.
  unfold main. unfold mbind at 1. unfold print at 1, emit at 1.
  unfold try_except, lift.
  destruct start_input as [e|start_time].
  { unfold mbind. destruct e; unfold print, logging_error, emit, mbind;
      rewrite !record_events_app; reflexivity. }
  destruct end_input as [e|end_time].
  { unfold mbind. destruct e; unfold print, logging_error, emit, mbind;
      rewrite !record_events_app; reflexivity. }
  unfold mbind at 1 2 3.
  destruct (Datetime.ge start_time end_time) as [e|[|]].
  { destruct e; unfold print, logging_error, emit, mbind;
      rewrite !record_events_app; reflexivity. }
  { unfold print, logging_error, emit, mbind.
    rewrite !record_events_app; reflexivity. }
  unfold mbind at 1.
  destruct (parse_log_for_positions float start_time end_time
              (record_events [Printed EnterTimeRange] w)) as [[e|[|p found]] w1].
  - destruct e; unfold print, logging_error, emit, mbind;
      rewrite !record_events_app; reflexivity.
  - unfold print, logging_info, emit, mbind.
    rewrite !record_events_app; reflexivity.
  - unfold print, logging_info, emit. unfold mbind at 1 2.
    rewrite !record_events_app. cbn [app].
    rewrite replay_eq. reflexivity.
Qed.

(** X16: when a typed date does not parse, or the two dates do not
    compare (one carries a time zone and the other does not), [main]
    reports it, as an invalid date format for a [ValueError] and as an
    unexpected error otherwise, and stops: the log file is not read and no
    socket is created. *)
Theorem main_reports_bad_input start_input end_input e (w : world F) :
  start_input = inl e \/
  (exists start_time, start_input = inr start_time /\ end_input = inl e) \/
  (exists start_time end_time,
      start_input = inr start_time /\ end_input = inr end_time /\
      Datetime.ge start_time end_time = inl e) ->
  main float xml start_input end_input w =
  (inr tt, record_events (Printed EnterTimeRange :: main_report e) w).
Proof.
  intros [->|[(s & -> & ->)|(s & e' & -> & -> & H)]]; rewrite main_cases;
    [reflexivity|reflexivity|now rewrite H].
Qed.

(** X17: with the start before the end and a scan that finds records,
    [main] announces their number and sends every one of them, in order:
    it ends normally having created exactly one socket per record. *)
Theorem main_replays_scanned_records start_time end_time (w w1 : world F) found :
  Datetime.ge start_time end_time = inr false ->
  parse_log_for_positions float start_time end_time
    (record_events [Printed EnterTimeRange] w) = (inr found, w1) ->
  found <> [] ->
  main float xml (inr start_time) (inr end_time) w =
  (inr tt,
   {| log_file := log_file w1; network := network w1;
      sockets := sockets w1 + List.length found;
      trace := trace w1
               ++ [Printed (FoundPositions (List.length found));
                   LoggedInfo (FoundPositions (List.length found))]
               ++ replay_events xml (network w1) (sockets w1) found |}).
Proof.
  intros Hge Hscan Hne. rewrite main_cases, Hge, Hscan.
  destruct found as [|p found]; [contradiction|].
  rewrite replay_eq. unfold record_events.
  cbn [log_file network sockets trace]. now rewrite <- app_assoc.
Qed.

End Facts.

(** C2, counterexample: the line the sender logs is a match for the
    scanner although the line as a whole does not conform to the pattern:
    text follows the altitude. *)
Lemma whole_line_need_not_conform :
  search cot_regex logged_line
    = Some [txt "2025-05-01 10:00:00,000"; txt "12.34"; txt "56.78"; txt "100.0"] /\
  ~ conforms logged_line.
Proof.
  split; [vm_compute; reflexivity|].
  intros H. apply Pattern.conforms_fullmatch in H. vm_compute in H. discriminate.
Qed.

(** C4, counterexample: a file holding a matching line inside the window
    and a matching line dated 30 February yields no record at all. *)
Lemma impossible_date_empties_the_scan :
  search cot_regex entry_line
    = Some [txt "2025-05-01 10:00:00,000"; txt "12.34"; txt "56.78"; txt "100.0"] /\
  parse_date (txt "2025-05-01 10:00:00,000") = inr ten /\
  between nine ten eleven = inr true /\
  fst (parse_log_for_positions literal nine eleven
         (fresh_world (Readable [entry_line; february30_line] None)
                      (fun _ => answering (Reply []))))
    = inr [] /\
  search cot_regex february30_line
    = Some [txt "2025-02-30 10:00:00,000"; txt "12.34"; txt "56.78"; txt "100.0"] /\
  parse_date (txt "2025-02-30 10:00:00,000") = inl ValueError.
Proof. repeat split; vm_compute; reflexivity. Qed.

(** The same happens to a window typed with a time zone: comparing its
    aware bound with the naive timestamp of a matching line raises. *)
Example aware_window_empties_the_scan :
  fst (parse_log_for_positions literal
         (mk_datetime (instant nine) (Some 0%Z)) eleven
         (fresh_world (Readable [entry_line] None)
                      (fun _ => answering (Reply []))))
    = inr [].
Proof. vm_compute. reflexivity. Qed.

(** C5, witness: an entry inside the window, then a line dated 30
    February, then another entry inside the window.  The scan returns the
    empty list and reports the [ValueError] of the second line. *)
Lemma scan_errors_yield_empty_witness :
  Selected literal nine eleven [entry_line]
    [(ten, txt "12.34", txt "56.78", txt "100.0")] /\
  search cot_regex february30_line
    = Some [txt "2025-02-30 10:00:00,000"; txt "12.34"; txt "56.78"; txt "100.0"] /\
  parse_date (txt "2025-02-30 10:00:00,000") = inl ValueError /\
  parse_log_for_positions literal nine eleven
    (fresh_world (Readable ([entry_line] ++ february30_line :: [half_past_line]) None)
                 (fun _ => answering (Reply [])))
  = (inr [],
     record_events
       [LoggedError (ErrorParsingLogFile ValueError);
        Printed (ErrorParsingLogFile ValueError)]
       (fresh_world (Readable ([entry_line] ++ february30_line :: [half_past_line]) None)
                    (fun _ => answering (Reply [])))).
Proof.
  assert (Hsel : Selected literal nine eleven [entry_line]
                   [(ten, txt "12.34", txt "56.78", txt "100.0")]).
  { apply (@Selected_inside text literal nine eleven entry_line []
             (txt "2025-05-01 10:00:00,000") (txt "12.34") (txt "56.78")
             (txt "100.0") ten []).
    - vm_compute. reflexivity.
    - vm_compute. reflexivity.
    - vm_compute. split; discriminate.
    - apply Selected_end. }
  assert (Hm : search cot_regex february30_line
               = Some [txt "2025-02-30 10:00:00,000"; txt "12.34"; txt "56.78";
                       txt "100.0"])
    by (vm_compute; reflexivity).
  assert (Hp : parse_date (txt "2025-02-30 10:00:00,000") = inl ValueError)
    by (vm_compute; reflexivity).
  split; [exact Hsel|]. split; [exact Hm|]. split; [exact Hp|].
  destruct (@scan_errors_yield_empty text literal nine eleven
              (fresh_world
                 (Readable ([entry_line] ++ february30_line :: [half_past_line]) None)
                 (fun _ => answering (Reply []))))
    as (_ & _ & _ & Habort & _).
  apply (Habort [entry_line] february30_line [half_past_line] None
           [(ten, txt "12.34", txt "56.78", txt "100.0")]
           (txt "2025-02-30 10:00:00,000") (txt "12.34") (txt "56.78")
           (txt "100.0") ValueError);
    try reflexivity; assumption.
Defined.

(** Without the line dated 30 February, the same scan returns the two
    entries. *)
Example scan_without_the_bad_line :
  fst (parse_log_for_positions literal nine eleven
         (fresh_world (Readable [entry_line; half_past_line] None)
                      (fun _ => answering (Reply []))))
  = inr [(ten, txt "12.34", txt "56.78", txt "100.0");
         (at_time "2025-05-01 10:00:00,500", txt "12.34", txt "56.78", txt "100.0")].
Proof. vm_compute. reflexivity. Qed.

(** C4, witness: a file with a line inside the window, a line that is no
    entry and a line after the window. *)
Lemma scan_selects_window_witness :
  exists positions,
    parse_log_for_positions literal nine eleven
      (fresh_world (Readable [entry_line; txt "restart"; noon_line] None)
                   (fun _ => answering (Reply [])))
    = (inr positions,
       fresh_world (Readable [entry_line; txt "restart"; noon_line] None)
                   (fun _ => answering (Reply []))) /\
    Selected literal nine eleven [entry_line; txt "restart"; noon_line] positions.
Proof.
  apply (@scan_selects_window text literal nine eleven
           [entry_line; txt "restart"; noon_line]).
  - reflexivity.
  - reflexivity.
  - reflexivity.
  - intros line ts lat lon alt Hin Hs.
    destruct Hin as [<-|[<-|[<-|[]]]]; vm_compute in Hs; inversion Hs; subst;
      eexists; vm_compute; reflexivity.
Defined.


(** The claim's example, evaluated: the line stamped 10:00:00,500 is left
    out of the window that ends at 10:00:00, the line stamped 10:00:00,000
    is in it. *)
Example half_second_late_is_outside :
  fst (parse_log_for_positions literal nine ten
         (fresh_world (Readable [half_past_line; entry_line] None)
                      (fun _ => answering (Reply []))))
  = inr [(ten, txt "12.34", txt "56.78", txt "100.0")].
Proof. vm_compute. reflexivity. Qed.

(** C6, at a failing input: the connection, the handshake and the send go
    through, the server answers with bytes that do not decode as UTF-8,
    and the call returns [False] with an unexpected error reported. *)
Lemma undecodable_response_fails :
  exists received,
    send_cot_to_tak xml_accepting (txt "12.34") (txt "56.78") (txt "100.0") ten
      (fresh_world (Unopenable FileNotFoundError) (fun _ => answering Undecodable))
    = (inr false,
       after_send
         ([Created 0%nat; Wrapped 0%nat; Connected 0%nat; TimeoutSet 0%nat 1;
           SentAll 0%nat (txt "<event/>");
           Printed (PositionMessage (txt "12.34") (txt "56.78") (txt "100.0") ten);
           LoggedInfo (PositionMessage (txt "12.34") (txt "56.78") (txt "100.0") ten)]
          ++ received
          ++ [Printed (UnexpectedErrorSending UnicodeDecodeError);
              LoggedError (UnexpectedErrorSending UnicodeDecodeError)])
         (fresh_world (Unopenable FileNotFoundError)
                      (fun _ => answering Undecodable))) /\
    (received = [] \/ received = [Received 0%nat]).
Proof.
  apply (@failed_response_read_fails_the_send text xml_accepting
           (txt "12.34") (txt "56.78") (txt "100.0") ten
           (at_time "2025-05-01 10:05:00,000") (txt "<event/>")
           UnicodeDecodeError
           (fresh_world (Unopenable FileNotFoundError)
                        (fun _ => answering Undecodable))).
  - reflexivity.
  - reflexivity.
  - vm_compute. reflexivity.
  - reflexivity.
  - reflexivity.
  - left. split; reflexivity.
Defined.

(** C1, at a failing input: the server accepts the connection
    and the event and then resets the connection; the call returns [False]
    and its socket, number 0, is still open. *)
Example reset_connection_leaves_socket_open :
  exists w',
    send_cot_to_tak xml_accepting (txt "12.34") (txt "56.78") (txt "100.0") ten
      (fresh_world (Unopenable FileNotFoundError)
                   (fun _ => answering (RecvRaises OSError)))
    = (inr false, w') /\
    In (Connected 0) (trace w') /\
    ~ In (Closed 0) (trace w') /\
    open_sockets (trace w') [] = [0%nat].
Proof.
  eexists. split; [vm_compute; reflexivity|].
  split; [cbn [trace In]; auto 10|].
  split; [|vm_compute; reflexivity].
  cbn [trace In]. intros H.
  repeat (destruct H as [H|H]; [discriminate H|]). exact H.
Qed.

(** The specification's first scenario: one entry at 10:00:00, window
    09:00:00 to 11:00:00. *)
Example scenario_one_record :
  parse_log_for_positions literal nine eleven
    (fresh_world (Readable [entry_line] None) (fun _ => answering (Reply [])))
  = (inr [(ten, txt "12.34", txt "56.78", txt "100.0")],
     fresh_world (Readable [entry_line] None) (fun _ => answering (Reply []))).
Proof. vm_compute. reflexivity. Qed.

(** The second scenario: the same log, window 11:00:00 to 12:00:00; the
    run ends without creating a socket. *)
Example scenario_empty_window :
  main literal xml_accepting
    (inr eleven) (inr (at_time "2025-05-01 12:00:00,000"))
    (fresh_world (Readable [entry_line] None) (fun _ => answering (Reply [])))
  = (inr tt,
     record_events
       [Printed EnterTimeRange; Printed NoPositionsInLog;
        LoggedInfo NoPositionsForRange]
       (fresh_world (Readable [entry_line] None) (fun _ => answering (Reply [])))).
Proof. vm_compute. reflexivity. Qed.

(** The third scenario: the host of the first record is unreachable; the
    run goes on to the second record without sleeping, and sleeps after
    the send that succeeds. *)
Example scenario_unreachable_host :
  exists w',
    main literal xml_accepting (inr nine) (inr eleven)
      (fresh_world (Readable [entry_line; logged_line] None)
         (fun s => match s with
                   | O => {| on_wrap := None;
                             on_connect := Some ConnectionRefusedError;
                             on_sendall := None;
                             on_recv := RecvRaises SocketTimeout |}
                   | _ => answering (RecvRaises SocketTimeout)
                   end))
    = (inr tt, w') /\
    map (fun ev => (is_created ev, is_closed ev, is_slept ev, is_failed_to_send ev))
        (filter (fun ev => is_created ev || is_closed ev || is_slept ev
                           || is_failed_to_send ev) (trace w'))
    = [(true, false, false, false); (false, false, false, true);
       (true, false, false, false); (false, true, false, false);
       (false, false, true, false)].
Proof. eexists. split; vm_compute; reflexivity. Qed.

(** X2, witness: the window check at equal start and end. *)
Lemma window_checked_before_scanning_witness :
  main literal xml_accepting (inr ten) (inr ten)
    (fresh_world (Readable [entry_line] None) (fun _ => answering (Reply [])))
  = (inr tt,
     record_events
       [Printed EnterTimeRange; Printed StartMustBeBeforeEnd;
        LoggedError StartIsNotBeforeEnd]
       (fresh_world (Readable [entry_line] None) (fun _ => answering (Reply [])))).
Proof.
  apply (@window_checked_before_scanning text literal xml_accepting ten ten).
  reflexivity.
Defined.

(** X3, witness: a scan of an empty window, then [main] on it. *)
Lemma empty_scan_sends_nothing_witness :
  main literal xml_accepting
    (inr eleven) (inr (at_time "2025-05-01 12:00:00,000"))
    (fresh_world (Readable [entry_line] None) (fun _ => answering (Reply [])))
  = (inr tt,
     record_events [Printed NoPositionsInLog; LoggedInfo NoPositionsForRange]
       (snd (parse_log_for_positions literal
               eleven (at_time "2025-05-01 12:00:00,000")
               (record_events [Printed EnterTimeRange]
                  (fresh_world (Readable [entry_line] None)
                     (fun _ => answering (Reply []))))))).
Proof.
  apply (@empty_scan_sends_nothing text literal xml_accepting
           eleven (at_time "2025-05-01 12:00:00,000")).
  - vm_compute. reflexivity.
  - vm_compute. reflexivity.
Defined.

(** X6, witness: the window 09:00 to 10:00 inside the window 09:00 to
    11:00. *)
Lemma narrower_window_filters_witness :
  exists found,
    fst (parse_log_for_positions literal nine eleven
           (fresh_world (Readable [entry_line; half_past_line; noon_line] None)
                        (fun _ => answering (Reply []))))
      = inr found /\
    fst (parse_log_for_positions literal nine ten
           (fresh_world (Readable [entry_line; half_past_line; noon_line] None)
                        (fun _ => answering (Reply []))))
      = inr (filter (in_window nine ten) found).
Proof.
  apply (@narrower_window_filters text literal nine ten nine eleven).
  - reflexivity.
  - reflexivity.
  - reflexivity.
  - reflexivity.
  - vm_compute. discriminate.
  - vm_compute. discriminate.
Defined.

(** X7, witness: the window from 11:00 back to 09:00. *)
Lemma inverted_window_finds_nothing_witness :
  fst (parse_log_for_positions literal eleven nine
         (fresh_world (Readable [entry_line] None)
                      (fun _ => answering (Reply []))))
    = inr [].
Proof.
  apply (@inverted_window_finds_nothing text literal eleven nine).
  - reflexivity.
  - reflexivity.
  - vm_compute. reflexivity.
Defined.

(** X8, witness: a file of two lines without an entry. *)
Lemma unmatched_lines_leave_no_trace_witness :
  parse_log_for_positions literal nine eleven
    (fresh_world (Readable [txt "restart"; txt "2025-05-01 10:00:00,000 - ERROR - down"] None)
                 (fun _ => answering (Reply [])))
  = (inr [],
     fresh_world (Readable [txt "restart"; txt "2025-05-01 10:00:00,000 - ERROR - down"] None)
                 (fun _ => answering (Reply []))).
Proof.
  apply (@unmatched_lines_leave_no_trace text literal nine eleven
           [txt "restart"; txt "2025-05-01 10:00:00,000 - ERROR - down"]).
  - reflexivity.
  - intros line [<-|[<-|[]]]; vm_compute; reflexivity.
Defined.

(** X9, witness: the line the sender logs. *)
Lemma match_is_info_entry_witness :
  exists before ts lat lon alt rest,
    [txt "2025-05-01 10:00:00,000"; txt "12.34"; txt "56.78"; txt "100.0"]
      = [ts; lat; lon; alt] /\
    List.length ts = 23%nat /\
    logged_line = before ++ ts ++ txt " - INFO - CoT for " ++ rest.
Proof.
  apply (@match_is_info_entry logged_line).
  vm_compute. reflexivity.
Defined.

(** X11, witness: an answer of two characters against no answer. *)
Lemma decodable_response_never_matters_witness :
  fst (send_cot_to_tak xml_accepting (txt "12.34") (txt "56.78") (txt "100.0") ten
         (fresh_world (Unopenable FileNotFoundError)
                      (fun _ => answering (Reply (txt "ok"))))) =
  fst (send_cot_to_tak xml_accepting (txt "12.34") (txt "56.78") (txt "100.0") ten
         (fresh_world (Unopenable FileNotFoundError)
                      (fun _ => answering (RecvRaises SocketTimeout)))).
Proof.
  apply (@decodable_response_never_matters text xml_accepting).
  - reflexivity.
  - reflexivity.
  - reflexivity.
  - left. exists (txt "ok"). reflexivity.
  - right. reflexivity.
Defined.

(** X12, witness: two minutes before the end of the year 9999. *)
Lemma stale_overflow_fails_after_connecting_witness :
  send_cot_to_tak xml_accepting (txt "12.34") (txt "56.78") (txt "100.0")
    (at_time "9999-12-31 23:58:00,000")
    (fresh_world (Unopenable FileNotFoundError) (fun _ => answering (Reply [])))
  = (inr false,
     after_send
       [Created 0%nat; Wrapped 0%nat; Connected 0%nat; TimeoutSet 0%nat 1;
        Printed (UnexpectedErrorSending OverflowError);
        LoggedError (UnexpectedErrorSending OverflowError)]
       (fresh_world (Unopenable FileNotFoundError)
                    (fun _ => answering (Reply [])))).
Proof.
  apply (@stale_overflow_fails_after_connecting text xml_accepting).
  - reflexivity.
  - reflexivity.
  - vm_compute. discriminate.
Defined.

(** X16, witness: a start that does not parse. *)
Lemma main_reports_bad_input_witness :
  main literal xml_accepting (inl ValueError) (inr ten)
    (fresh_world (Readable [entry_line] None) (fun _ => answering (Reply [])))
  = (inr tt,
     record_events (Printed EnterTimeRange :: main_report ValueError)
       (fresh_world (Readable [entry_line] None) (fun _ => answering (Reply [])))).
Proof.
  apply (@main_reports_bad_input text literal xml_accepting).
  left. reflexivity.
Defined.

(** X17, witness: one record in the window 09:00 to 11:00. *)
Lemma main_replays_scanned_records_witness :
  main literal xml_accepting (inr nine) (inr eleven)
    (fresh_world (Readable [entry_line] None) (fun _ => answering (Reply [])))
  = (inr tt,
     {| log_file := Readable [entry_line] None;
        network := fun _ => answering (Reply []);
        sockets := 0 + 1;
        trace := [Printed EnterTimeRange]
                 ++ [Printed (FoundPositions 1); LoggedInfo (FoundPositions 1)]
                 ++ replay_events xml_accepting (fun _ => answering (Reply [])) 0
                      [(ten, txt "12.34", txt "56.78", txt "100.0")] |}).
Proof.
  apply (@main_replays_scanned_records text literal xml_accepting nine eleven
           (fresh_world (Readable [entry_line] None) (fun _ => answering (Reply [])))
           (record_events [Printed EnterTimeRange]
              (fresh_world (Readable [entry_line] None)
                 (fun _ => answering (Reply []))))
           [(ten, txt "12.34", txt "56.78", txt "100.0")]).
  - vm_compute. reflexivity.
  - vm_compute. reflexivity.
  - discriminate.
Defined.

End ReplayFacts.
